(** * Novolto: a Modbus register monitor and editor

    Shallow embedding of [src/main.py] and the properties of its register
    codec, batch reader, register editor and heating controller.

    Python integers are [Z] (unbounded, with [>>], [<<], [&] and [|] as
    [Z.shiftr], [Z.shiftl], [Z.land] and [Z.lor]); Python floats are IEEE-754
    binary64 values, written as [spec_float]; the Modbus client is an
    interface with a state of its own; console input, console output, the log
    file and the calls made on the client are threaded through a state and
    exception monad. *)

From Stdlib Require Import ZArith List String Ascii Bool Lia.
From Stdlib Require Import Floats.SpecFloat.
Import ListNotations.

Local Open Scope string_scope.
Local Open Scope list_scope.
Local Open Scope Z_scope.

(** ** Python results: a value, a raised exception, or a loop out of fuel *)

Inductive PyExc : Type :=
| ValueError          (* int() or float() on a malformed literal *)
| IndexError          (* list index out of range *)
| StructError         (* struct.error *)
| OverflowError       (* struct.pack('>f', x) with x too large *)
| EOFError            (* input() at end of input *)
| KeyError            (* a dictionary without the key *)
| TypeError           (* an operand of the wrong type *)
| UnboundLocalError.  (* a local variable read before assignment *)

Inductive Res (A : Type) : Type :=
| Ok (a : A)
| Raise (e : PyExc)
| OutOfFuel.

Arguments Ok {A} a.
Arguments Raise {A} e.
Arguments OutOfFuel {A}.

Definition res_bind {A B} (r : Res A) (k : A -> Res B) : Res B :=
  match r with
  | Ok a => k a
  | Raise e => Raise e
  | OutOfFuel => OutOfFuel
  end.

Declare Scope res_scope.
Delimit Scope res_scope with res.
Notation "x <-? c ;; k" := (res_bind c (fun x => k))
  (at level 61, c at next level, right associativity) : res_scope.

(** [l[i]] for a non-negative literal index. *)
Definition getitem {A} (l : list A) (i : nat) : Res A :=
  match nth_error l i with
  | Some x => Ok x
  | None => Raise IndexError
  end.

(** The two kinds of values the program reads, parses and prints. *)
Inductive PyVal : Type :=
| PyInt (z : Z)
| PyFloat (f : spec_float).

(** ** The UInt32 word expressions *)

(** Line 52: [[(value >> 16) & 0xFFFF, value & 0xFFFF]]. *)
Definition uint32_register_values (value : Z) : list Z :=
  [Z.land (Z.shiftr value 16) 0xFFFF; Z.land value 0xFFFF].

(** Line 37: [(response.registers[0] << 16) | response.registers[1]]. *)
Definition uint32_of_registers (regs : list Z) : Res Z :=
  (r0 <-? getitem regs 0 ;;
   r1 <-? getitem regs 1 ;;
   Ok (Z.lor (Z.shiftl r0 16) r1))%res.

(** ** IEEE-754 binary32 and binary64

    A Python float is a C double.  [struct.pack('>f', x)] casts the double to
    a C float (round to nearest, ties to even) and stores its binary32
    interchange encoding; [struct.unpack('>f', b)] reads a binary32 encoding
    and widens it to a double.  Both formats are instances of [SpecFloat]:
    binary32 is [prec = 24, emax = 128], binary64 is [prec = 53, emax = 1024].
    [SpecFloat] has a single NaN: the sign and the payload a NaN carries
    through the program are not modelled, and the properties of the codec
    are stated for values that are not NaN. *)

Module IEEE.

Definition prec32 : Z := 24.
Definition emax32 : Z := 128.
Definition prec64 : Z := 53.
Definition emax64 : Z := 1024.

Definition valid32 (x : spec_float) : bool := valid_binary prec32 emax32 x.
Definition valid64 (x : spec_float) : bool := valid_binary prec64 emax64 x.

Definition is_infinite (x : spec_float) : bool :=
  match x with
  | S754_infinity _ => true
  | _ => false
  end.

(** Zeros and the [S754_finite] values: neither infinite nor NaN. *)
Definition is_finite (x : spec_float) : bool :=
  match x with
  | S754_zero _ | S754_finite _ _ _ => true
  | S754_infinity _ | S754_nan => false
  end.

(** The cast [(float) x] of a double. *)
Definition double_to_float (x : spec_float) : spec_float :=
  match x with
  | S754_finite s m e => binary_round prec32 emax32 s m e
  | _ => x
  end.

(** The cast [(double) x] of a float. *)
Definition float_to_double (x : spec_float) : spec_float :=
  match x with
  | S754_finite s m e => binary_round prec64 emax64 s m e
  | _ => x
  end.

Definition sign_field (s : bool) : Z := if s then 2 ^ 31 else 0.

(** The binary32 interchange encoding: sign (1 bit), biased exponent
    (8 bits), trailing significand (23 bits).  A finite value [m * 2^e]
    with [2^23 <= m] is normal, with biased exponent [e + 150]; below
    that it is subnormal ([e = -149], exponent field 0). *)
Definition float_to_bits (x : spec_float) : Z :=
  match x with
  | S754_zero s => sign_field s
  | S754_infinity s => sign_field s + 255 * 2 ^ 23
  | S754_nan => 255 * 2 ^ 23 + 2 ^ 22
  | S754_finite s m e =>
      if 2 ^ 23 <=? Zpos m
      then sign_field s + (e + 150) * 2 ^ 23 + (Zpos m - 2 ^ 23)
      else sign_field s + Zpos m
  end.

Definition bits_to_float (b : Z) : spec_float :=
  let s := 2 ^ 31 <=? b in
  let expo := (b / 2 ^ 23) mod 256 in
  let frac := b mod 2 ^ 23 in
  if expo =? 0 then
    match frac with
    | Zpos m => S754_finite s m (-149)
    | _ => S754_zero s
    end
  else if expo =? 255 then
    (if frac =? 0 then S754_infinity s else S754_nan)
  else
    match frac + 2 ^ 23 with
    | Zpos m => S754_finite s m (expo - 150)
    | _ => S754_nan
    end.

End IEEE.

(** ** The [struct] module, for the three formats the program uses

    A byte string is the list of its bytes, each a [Z] in [0, 255]. *)

Definition is_uint16 (x : Z) : bool := (0 <=? x) && (x <=? 65535).

(** [struct.pack('>f', value)]: [OverflowError] when a finite double is too
    large for a float. *)
Definition struct_pack_f (value : spec_float) : Res (list Z) :=
  let y := IEEE.double_to_float value in
  if IEEE.is_infinite y && negb (IEEE.is_infinite value)
  then Raise OverflowError
  else
    let b := IEEE.float_to_bits y in
    Ok [(b / 2 ^ 24) mod 256; (b / 2 ^ 16) mod 256; (b / 2 ^ 8) mod 256; b mod 256].

(** [struct.unpack('>f', byte_string)[0]]. *)
Definition struct_unpack_f (byte_string : list Z) : Res spec_float :=
  match byte_string with
  | [b0; b1; b2; b3] =>
      Ok (IEEE.float_to_double
            (IEEE.bits_to_float (b0 * 2 ^ 24 + b1 * 2 ^ 16 + b2 * 2 ^ 8 + b3)))
  | _ => Raise StructError
  end.

(** [struct.pack('>HH', a, b)]: [struct.error] unless both fit 16 bits. *)
Definition struct_pack_HH (a b : Z) : Res (list Z) :=
  if is_uint16 a && is_uint16 b
  then Ok [a / 256; a mod 256; b / 256; b mod 256]
  else Raise StructError.

(** [struct.unpack('>HH', byte_string)], the tuple as a list. *)
Definition struct_unpack_HH (byte_string : list Z) : Res (list Z) :=
  match byte_string with
  | [b0; b1; b2; b3] => Ok [b0 * 256 + b1; b2 * 256 + b3]
  | _ => Raise StructError
  end.

(** ** The Float32 word expressions *)

(** Lines 41-42: [struct.unpack('>HH', struct.pack('>f', value))]. *)
Definition float_register_values (value : spec_float) : Res (list Z) :=
  (byte_string <-? struct_pack_f value ;;
   struct_unpack_HH byte_string)%res.

(** Lines 27-29:
    [struct.unpack('>f', struct.pack('>HH', raw_value[0], raw_value[1]))[0]]. *)
Definition float_of_registers (raw_value : list Z) : Res spec_float :=
  (r0 <-? getitem raw_value 0 ;;
   r1 <-? getitem raw_value 1 ;;
   byte_string <-? struct_pack_HH r0 r1 ;;
   struct_unpack_f byte_string)%res.

(** ** The built-ins [int()] and [float()] on a line of ASCII input

    [None] of the helper functions is a malformed literal.  Digits may be
    separated by single underscores; surrounding white space (tab, line
    feed, vertical tab, form feed, carriage return and space, as
    [Py_ISSPACE] has it) is ignored.  On a line with other than ASCII
    characters the interpreter also takes the digits and blanks of other
    scripts, and newer interpreters refuse an integer literal of more than
    4300 digits: the properties that depend on what a line parses to are
    stated for the lines of [plain_line], on which neither happens. *)

Module Literal.

Definition is_space (c : ascii) : bool :=
  let n := Z.of_N (N_of_ascii c) in
  ((9 <=? n) && (n <=? 13)) || (n =? 32).

Fixpoint lstrip (l : list ascii) : list ascii :=
  match l with
  | c :: t => if is_space c then lstrip t else l
  | [] => []
  end.

Definition strip (l : list ascii) : list ascii :=
  rev (lstrip (rev (lstrip l))).

Definition digit_of (c : ascii) : option Z :=
  let n := Z.of_N (N_of_ascii c) in
  if (48 <=? n) && (n <=? 57) then Some (n - 48) else None.

Definition lower (c : ascii) : ascii :=
  let n := N_of_ascii c in
  if (65 <=? n)%N && (n <=? 90)%N then ascii_of_N (n + 32) else c.

(** After a digit: more digits, each optionally preceded by one underscore.
    Returns the value read, the number of digits read and what is left. *)
Fixpoint scan_digits (acc count : Z) (l : list ascii) : Z * Z * list ascii :=
  match l with
  | c :: t =>
      match digit_of c with
      | Some d => scan_digits (10 * acc + d) (count + 1) t
      | None =>
          if Ascii.eqb c "_"%char then
            match t with
            | c' :: t' =>
                match digit_of c' with
                | Some d => scan_digits (10 * acc + d) (count + 1) t'
                | None => (acc, count, l)
                end
            | [] => (acc, count, l)
            end
          else (acc, count, l)
      end
  | [] => (acc, count, l)
  end.

(** A non-empty run of digits. *)
Definition digitpart (l : list ascii) : option (Z * Z * list ascii) :=
  match l with
  | c :: t =>
      match digit_of c with
      | Some d => Some (scan_digits d 1 t)
      | None => None
      end
  | [] => None
  end.

(** A possibly empty run of digits. *)
Definition opt_digitpart (l : list ascii) : Z * Z * list ascii :=
  match digitpart l with
  | Some r => r
  | None => (0, 0, l)
  end.

Definition sign (l : list ascii) : bool * list ascii :=
  match l with
  | "-"%char :: t => (true, t)
  | "+"%char :: t => (false, t)
  | _ => (false, l)
  end.

Definition int_literal (l : list ascii) : option Z :=
  let '(neg, l1) := sign (strip l) in
  match digitpart l1 with
  | Some (v, _, []) => Some (if neg then - v else v)
  | _ => None
  end.

(** The double nearest to [d * 10^e10] (ties to even), for [0 <= d]. *)
Definition decimal_to_double (neg : bool) (d e10 : Z) : spec_float :=
  if d =? 0 then S754_zero neg
  else if 0 <=? e10 then
    match d * 10 ^ e10 with
    | Zpos m => binary_round IEEE.prec64 IEEE.emax64 neg m 0
    | _ => S754_zero neg
    end
  else
    let '(q, e, l) :=
      SFdiv_core_binary IEEE.prec64 IEEE.emax64 d 0 (10 ^ (- e10)) 0 in
    binary_round_aux IEEE.prec64 IEEE.emax64 neg q e l.

(** [e] or [E], an optional sign and a non-empty run of digits. *)
Definition exponent (l : list ascii) : option (Z * list ascii) :=
  match l with
  | c :: t =>
      if Ascii.eqb (lower c) "e"%char then
        let '(neg, t1) := sign t in
        match digitpart t1 with
        | Some (v, _, rest) => Some (if neg then - v else v, rest)
        | None => None
        end
      else Some (0, l)
  | [] => Some (0, [])
  end.

Definition float_literal (l : list ascii) : option spec_float :=
  let '(neg, l1) := sign (strip l) in
  let word := string_of_list_ascii (map lower l1) in
  if String.eqb word "inf" || String.eqb word "infinity"
  then Some (S754_infinity neg)
  else if String.eqb word "nan" then Some S754_nan
  else
    let '(vi, ni, l2) := opt_digitpart l1 in
    let '(vf, nf, l3) :=
      match l2 with
      | "."%char :: t => opt_digitpart t
      | _ => (0, 0, l2)
      end in
    if ni + nf =? 0 then None
    else
      match exponent l3 with
      | Some (ex, []) => Some (decimal_to_double neg (vi * 10 ^ nf + vf) (ex - nf))
      | _ => None
      end.

End Literal.

(** [int(s)]. *)
Definition py_int (s : string) : Res Z :=
  match Literal.int_literal (list_ascii_of_string s) with
  | Some z => Ok z
  | None => Raise ValueError
  end.

(** [float(s)]. *)
Definition py_float (s : string) : Res spec_float :=
  match Literal.float_literal (list_ascii_of_string s) with
  | Some f => Ok f
  | None => Raise ValueError
  end.

(** A line of ASCII characters only, of at most 4300 of them: what [int()]
    and [float()] make of such a line does not depend on the digits and
    blanks of other scripts nor on the interpreter's limit on the digits of
    an integer literal. *)
Definition plain_line (line : string) : bool :=
  forallb (fun c => (N_of_ascii c <? 128)%N) (list_ascii_of_string line)
  && (Z.of_nat (String.length line) <=? 4300).

(** [float(z)] of an integer, as [struct.pack('>f', z)] converts it first. *)
Definition float_of_int (z : Z) : Res spec_float :=
  let d := binary_normalize IEEE.prec64 IEEE.emax64 z 0 false in
  if IEEE.is_infinite d then Raise OverflowError else Ok d.

(** ** The Modbus client (pymodbus) as an interface

    A response is either flagged as an error or carries the registers read.
    The device behind the client has a state of its own, which every request
    may change.  The program tests [isError()] and nothing else: exceptions
    the client library might raise by itself are not part of the interface. *)

Record Response : Type := mkResponse {
  isError : bool;
  response_registers : list Z
}.

Class ModbusTcpClient (Dev : Type) : Type := {
  read_holding_registers : Dev -> Z -> Z -> Response * Dev;
  write_registers : Dev -> Z -> list Z -> Response * Dev
}.

(** The calls the program makes on its client, in order. *)
Inductive Call : Type :=
| Connect
| ReadHoldingRegisters (address length : Z)
| WriteRegisters (address : Z) (values : list Z)
| Close.

(** ** The register map (lines 13-19) *)

Record Register : Type := mkRegister {
  reg_address : Z;
  reg_type : string;
  reg_length : Z;
  reg_unit : string;
  reg_description : string;
  reg_access : string
}.

(** A Python dict keeps insertion order: an association list. *)
Definition registers : list (string * Register) :=
  [ ("state", mkRegister 30 "uint32" 2 "" "State" "rw");
    ("sptw", mkRegister 32 "float" 2 "°C" "Target Water Temperature" "rw");
    ("sptwh", mkRegister 34 "float" 2 "K" "Hysteresis Water Temperature" "rw");
    ("spp", mkRegister 36 "uint32" 2 "W" "Target Heating Power" "rw");
    ("ni", mkRegister 38 "uint32" 2 "ms" "Soldering Interval" "rw") ].

Fixpoint dict_get {V} (d : list (string * V)) (key : string) : option V :=
  match d with
  | [] => None
  | (k, v) :: rest => if String.eqb key k then Some v else dict_get rest key
  end.

(** [d[key]]. *)
Definition subscript {V} (d : list (string * V)) (key : string) : Res V :=
  match dict_get d key with
  | Some v => Ok v
  | None => Raise KeyError
  end.

(** [x in [a, b, ...]] for strings. *)
Definition str_in (x : string) (l : list string) : bool :=
  existsb (String.eqb x) l.

(** ** What the program prints, logs and prompts

    Each constructor is one string literal or f-string of the source, with
    the interpolated values as arguments. *)

Inductive Msg : Type :=
| ErrorReadingAddress (address : Z)
| WritingToAddress (address : Z) (register_values : list Z)
| ErrorWritingToAddress (address : Z)
| RegisterValue (description : string) (address : Z) (value : PyVal) (unit : string)
| FailedToRead (description : string) (address : Z)
| AvailableRegisters
| RegisterChoice (key description : string) (address : Z) (unit : string)
| EnterRegisterKey
| InvalidKey
| EnterNewValue (reg_key unit : string)
| SuccessfullyUpdated (description : string) (new_value : PyVal) (unit : string)
| FailedToUpdate
| EnterTargetPower
| EnterSystemState
| UpdatedHeatingSystem (target_power system_state : Z)
| InvalidInput
| InitialValues
| Menu
| MenuOption (key option : string)
| EnterYourChoice
| CurrentValues
| InvalidChoice.

Inductive Event : Type :=
| Print (m : Msg)
| Prompt (m : Msg)
| LogInfo (m : Msg)
| LogError (m : Msg).

(** ** The state of a run and the monad of the program *)

Record World (Dev : Type) : Type := mkWorld {
  device : Dev;
  stdin : list string;
  output : list Event;
  calls : list Call
}.

Arguments mkWorld {Dev} _ _ _ _.
Arguments device {Dev} _.
Arguments stdin {Dev} _.
Arguments output {Dev} _.
Arguments calls {Dev} _.

Definition Prog (Dev A : Type) : Type := World Dev -> Res A * World Dev.

Section Program.

Context {Dev : Type} {client : ModbusTcpClient Dev}.

Definition ret {A} (a : A) : Prog Dev A := fun w => (Ok a, w).

Definition bind {A B} (c : Prog Dev A) (k : A -> Prog Dev B) : Prog Dev B :=
  fun w =>
    match c w with
    | (Ok a, w') => k a w'
    | (Raise e, w') => (Raise e, w')
    | (OutOfFuel, w') => (OutOfFuel, w')
    end.

Definition raise {A} (e : PyExc) : Prog Dev A := fun w => (Raise e, w).

Definition out_of_fuel {A} : Prog Dev A := fun w => (OutOfFuel, w).

Definition lift {A} (r : Res A) : Prog Dev A := fun w => (r, w).

(** [try: body except ValueError: handler]. *)
Definition try_except_ValueError (body handler : Prog Dev unit) : Prog Dev unit :=
  fun w =>
    match body w with
    | (Raise ValueError, w') => handler w'
    | other => other
    end.

Definition emit (e : Event) : Prog Dev unit :=
  fun w => (Ok tt, mkWorld (device w) (stdin w) (output w ++ [e]) (calls w)).

Definition print (m : Msg) : Prog Dev unit := emit (Print m).
Definition logging_info (m : Msg) : Prog Dev unit := emit (LogInfo m).
Definition logging_error (m : Msg) : Prog Dev unit := emit (LogError m).

(** [input(prompt)]: shows the prompt and takes the next line. *)
Definition input (prompt : Msg) : Prog Dev string :=
  fun w =>
    let out := output w ++ [Prompt prompt] in
    match stdin w with
    | [] => (Raise EOFError, mkWorld (device w) [] out (calls w))
    | line :: rest => (Ok line, mkWorld (device w) rest out (calls w))
    end.

Definition client_read_holding_registers (address length : Z) : Prog Dev Response :=
  fun w =>
    let (response, d) := read_holding_registers (device w) address length in
    (Ok response,
     mkWorld d (stdin w) (output w) (calls w ++ [ReadHoldingRegisters address length])).

Definition client_write_registers (address : Z) (values : list Z) : Prog Dev Response :=
  fun w =>
    let (response, d) := write_registers (device w) address values in
    (Ok response,
     mkWorld d (stdin w) (output w) (calls w ++ [WriteRegisters address values])).

Definition client_connect : Prog Dev unit :=
  fun w => (Ok tt, mkWorld (device w) (stdin w) (output w) (calls w ++ [Connect])).

Definition client_close : Prog Dev unit :=
  fun w => (Ok tt, mkWorld (device w) (stdin w) (output w) (calls w ++ [Close])).

End Program.

Declare Scope prog_scope.
Delimit Scope prog_scope with prog.
Notation "x <- c ;; k" := (bind c (fun x => k))
  (at level 61, c at next level, right associativity) : prog_scope.
Notation "c ;; k" := (bind c (fun _ => k))
  (at level 61, right associativity) : prog_scope.

(** ** The program (lines 21-152) *)

Section Main.

Context {Dev : Type} {client : ModbusTcpClient Dev}.

Local Open Scope prog_scope.

(** Lines 21-29.  [None] is Python's [None]. *)
Definition read_float (address length : Z) : Prog Dev (option spec_float) :=
  response <- client_read_holding_registers address length ;;
  if isError response then
    logging_error (ErrorReadingAddress address) ;;
    ret None
  else
    let raw_value := response_registers response in
    f <- lift (float_of_registers raw_value) ;;
    ret (Some f).

(** Lines 31-37. *)
Definition read_uint32 (address length : Z) : Prog Dev (option Z) :=
  response <- client_read_holding_registers address length ;;
  if isError response then
    logging_error (ErrorReadingAddress address) ;;
    ret None
  else
    v <- lift (uint32_of_registers (response_registers response)) ;;
    ret (Some v).

(** Lines 39-48. *)
Definition write_float (address : Z) (value : spec_float) : Prog Dev bool :=
  register_values <- lift (float_register_values value) ;;
  logging_info (WritingToAddress address register_values) ;;
  response <- client_write_registers address register_values ;;
  if isError response then
    logging_error (ErrorWritingToAddress address) ;;
    ret false
  else ret true.

(** Lines 50-58. *)
Definition write_uint32 (address : Z) (value : Z) : Prog Dev bool :=
  let register_values := uint32_register_values value in
  logging_info (WritingToAddress address register_values) ;;
  response <- client_write_registers address register_values ;;
  if isError response then
    logging_error (ErrorWritingToAddress address) ;;
    ret false
  else ret true.

(** Lines 62-74: the body of the [for] loop.  The local [value] lives
    across iterations: [None] is "not assigned yet", [Some None] is
    Python's [None]. *)
Fixpoint read_all_loop (items : list (string * Register))
    (value : option (option PyVal)) : Prog Dev unit :=
  match items with
  | [] => ret tt
  | (key, reg) :: rest =>
      if str_in (reg_access reg) ["r"; "rw"] then
        value <-
          (if String.eqb (reg_type reg) "float" then
             v <- read_float (reg_address reg) (reg_length reg) ;;
             ret (Some (option_map PyFloat v))
           else if String.eqb (reg_type reg) "uint32" then
             v <- read_uint32 (reg_address reg) (reg_length reg) ;;
             ret (Some (option_map PyInt v))
           else ret value) ;;
        match value with
        | None => raise UnboundLocalError
        | Some (Some v) =>
            print (RegisterValue (reg_description reg) (reg_address reg) v (reg_unit reg)) ;;
            logging_info (RegisterValue (reg_description reg) (reg_address reg) v (reg_unit reg))
        | Some None =>
            print (FailedToRead (reg_description reg) (reg_address reg)) ;;
            logging_error (FailedToRead (reg_description reg) (reg_address reg))
        end ;;
        read_all_loop rest value
      else read_all_loop rest value
  end.

(** Lines 60-74. *)
Definition read_all_values : Prog Dev unit :=
  read_all_loop registers None.

(** Lines 79-81. *)
Fixpoint print_writable (items : list (string * Register)) : Prog Dev unit :=
  match items with
  | [] => ret tt
  | (key, reg) :: rest =>
      (if String.eqb (reg_access reg) "rw" then
         print (RegisterChoice key (reg_description reg) (reg_address reg) (reg_unit reg))
       else ret tt) ;;
      print_writable rest
  end.

(** The locals of [change_value] that live across iterations of its
    [while] loop; [None] is "not assigned yet". *)
Record EditLocals : Type := mkEditLocals {
  new_value : option PyVal;
  success : option bool
}.

(** Lines 91-106: one pass of the loop body for a valid key. *)
Definition change_one (reg_key : string) (reg : Register) (locals : EditLocals)
    : Prog Dev EditLocals :=
  new_value <-
    (if String.eqb (reg_type reg) "float" then
       line <- input (EnterNewValue reg_key (reg_unit reg)) ;;
       f <- lift (py_float line) ;;
       ret (Some (PyFloat f))
     else if String.eqb (reg_type reg) "uint32" then
       line <- input (EnterNewValue reg_key (reg_unit reg)) ;;
       z <- lift (py_int line) ;;
       ret (Some (PyInt z))
     else ret (new_value locals)) ;;
  success <-
    (if String.eqb (reg_type reg) "float" then
       match new_value with
       | None => raise UnboundLocalError
       | Some (PyFloat f) => ok <- write_float (reg_address reg) f ;; ret (Some ok)
       | Some (PyInt z) =>
           f <- lift (float_of_int z) ;;
           ok <- write_float (reg_address reg) f ;; ret (Some ok)
       end
     else if String.eqb (reg_type reg) "uint32" then
       match new_value with
       | None => raise UnboundLocalError
       | Some (PyInt z) => ok <- write_uint32 (reg_address reg) z ;; ret (Some ok)
       | Some (PyFloat _) => raise TypeError
       end
     else ret (success locals)) ;;
  match success with
  | None => raise UnboundLocalError
  | Some true =>
      match new_value with
      | None => raise UnboundLocalError
      | Some v =>
          logging_info (SuccessfullyUpdated (reg_description reg) v (reg_unit reg)) ;;
          print (SuccessfullyUpdated (reg_description reg) v (reg_unit reg))
      end
  | Some false => print FailedToUpdate
  end ;;
  ret (mkEditLocals new_value success).

(** Lines 83-106: the [while True] loop.  Every pass takes at least one
    line of input, so [fuel] beyond the number of lines left is never
    used up. *)
Fixpoint change_loop (fuel : nat) (locals : EditLocals) : Prog Dev unit :=
  match fuel with
  | O => out_of_fuel
  | S fuel' =>
      reg_key <- input EnterRegisterKey ;;
      if String.eqb reg_key "q" then ret tt
      else
        match dict_get registers reg_key with
        | None => print InvalidKey ;; change_loop fuel' locals
        | Some reg =>
            if negb (String.eqb (reg_access reg) "rw") then
              print InvalidKey ;; change_loop fuel' locals
            else
              locals' <- change_one reg_key reg locals ;;
              change_loop fuel' locals'
        end
  end.

(** Lines 76-106. *)
Definition change_value : Prog Dev unit :=
  print AvailableRegisters ;;
  print_writable registers ;;
  fun w => change_loop (S (List.length (stdin w))) (mkEditLocals None None) w.

(** Lines 108-117. *)
Definition control_heating : Prog Dev unit :=
  try_except_ValueError
    (line1 <- input EnterTargetPower ;;
     target_power <- lift (py_int line1) ;;
     line2 <- input EnterSystemState ;;
     system_state <- lift (py_int line2) ;;
     spp <- lift (subscript registers "spp") ;;
     power_ok <- write_uint32 (reg_address spp) target_power ;;
     both_ok <-
       (if power_ok then
          state <- lift (subscript registers "state") ;;
          write_uint32 (reg_address state) system_state
        else ret false) ;;
     if both_ok then
       logging_info (UpdatedHeatingSystem target_power system_state) ;;
       print (UpdatedHeatingSystem target_power system_state)
     else ret tt)
    (print InvalidInput).

(** Lines 127-132. *)
Definition menu_options : list (string * string) :=
  [ ("1", "Monitor values"); ("2", "Change values");
    ("3", "Control heating"); ("4", "Exit") ].

Fixpoint print_menu (items : list (string * string)) : Prog Dev unit :=
  match items with
  | [] => ret tt
  | (key, option) :: rest => print (MenuOption key option) ;; print_menu rest
  end.

(** Lines 134-150. *)
Fixpoint main_loop (fuel : nat) : Prog Dev unit :=
  match fuel with
  | O => out_of_fuel
  | S fuel' =>
      print Menu ;;
      print_menu menu_options ;;
      choice <- input EnterYourChoice ;;
      if String.eqb choice "1" then
        print CurrentValues ;; read_all_values ;; main_loop fuel'
      else if String.eqb choice "2" then
        change_value ;; main_loop fuel'
      else if String.eqb choice "3" then
        control_heating ;; main_loop fuel'
      else if String.eqb choice "4" then ret tt
      else print InvalidChoice ;; main_loop fuel'
  end.

(** Lines 119-152. *)
Definition main : Prog Dev unit :=
  client_connect ;;
  print InitialValues ;;
  read_all_values ;;
  (fun w => main_loop (S (List.length (stdin w))) w) ;;
  client_close.

End Main.

(** ** A register bank to run the program against

    Holding registers as a map from address to word; reads of the addresses
    in [fail_reads] and writes to the addresses in [fail_writes] are answered
    with an error response. *)

Record Bank : Type := mkBank {
  memory : Z -> Z;
  fail_reads : list Z;
  fail_writes : list Z
}.

Fixpoint bank_load (mem : Z -> Z) (address : Z) (n : nat) : list Z :=
  match n with
  | O => []
  | S n' => mem address :: bank_load mem (address + 1) n'
  end.

Fixpoint bank_store (mem : Z -> Z) (address : Z) (values : list Z) : Z -> Z :=
  match values with
  | [] => mem
  | v :: rest =>
      bank_store (fun a => if a =? address then v else mem a) (address + 1) rest
  end.

#[export] Instance Bank_client : ModbusTcpClient Bank := {
  read_holding_registers b address length :=
    if existsb (Z.eqb address) (fail_reads b)
    then (mkResponse true [], b)
    else (mkResponse false (bank_load (memory b) address (Z.to_nat length)), b);
  write_registers b address values :=
    if existsb (Z.eqb address) (fail_writes b)
    then (mkResponse true [], b)
    else (mkResponse false [],
          mkBank (bank_store (memory b) address values) (fail_reads b) (fail_writes b))
}.

Definition start {Dev} (d : Dev) (lines : list string) : World Dev :=
  mkWorld d lines [] [].

Definition bank0 : Bank := mkBank (fun _ => 0) [] [].

(** ** Vocabulary of the properties *)

(** [f] on the value of a result. *)
Definition res_map {A B} (f : A -> B) (r : Res A) : Res B :=
  match r with
  | Ok a => Ok (f a)
  | Raise e => Raise e
  | OutOfFuel => OutOfFuel
  end.

(** The world after one read on the client, with the events it led to. *)
Definition after_read {Dev} (w : World Dev) (d : Dev) (address length : Z)
    (events : list Event) : World Dev :=
  mkWorld d (stdin w) (output w ++ events)
    (calls w ++ [ReadHoldingRegisters address length]).

(** A bank holding the given words, zero elsewhere, that never fails. *)
Definition bank_of (words : list (Z * Z)) : Bank :=
  mkBank
    (fun a => match find (fun aw => fst aw =? a) words with
              | Some aw => snd aw
              | None => 0
              end)
    [] [].

(** What a failed read of a register leaves on the log and the console. *)
Definition failed_read_events (reg : Register) : list Event :=
  [ LogError (ErrorReadingAddress (reg_address reg));
    Print (FailedToRead (reg_description reg) (reg_address reg));
    LogError (FailedToRead (reg_description reg) (reg_address reg)) ].

(** What a value read from a register leaves on the console and the log. *)
Definition value_events (reg : Register) (v : PyVal) : list Event :=
  [ Print (RegisterValue (reg_description reg) (reg_address reg) v (reg_unit reg));
    LogInfo (RegisterValue (reg_description reg) (reg_address reg) v (reg_unit reg)) ].

(** A response that is no error and carries two 16-bit words. *)
Definition healthy_read (r : Response) : Prop :=
  isError r = false /\
  exists w0 w1, response_registers r = [w0; w1] /\
                is_uint16 w0 = true /\ is_uint16 w1 = true.

(** A bank that answers every read with two 16-bit words, but for the
    register at address 34. *)
Definition bank_sptwh_down : Bank := mkBank (fun _ => 7) [34] [].

Definition sptwh_down (d : Bank) : Prop :=
  fail_reads d = [34] /\ forall a, is_uint16 (memory d a) = true.

(** The header of [change_value], before its loop. *)
Definition editor_header : list Event :=
  [ Print AvailableRegisters;
    Print (RegisterChoice "state" "State" 30 "");
    Print (RegisterChoice "sptw" "Target Water Temperature" 32 "°C");
    Print (RegisterChoice "sptwh" "Hysteresis Water Temperature" 34 "K");
    Print (RegisterChoice "spp" "Target Heating Power" 36 "W");
    Print (RegisterChoice "ni" "Soldering Interval" 38 "ms") ].

Section Outcomes.

Context {Dev : Type} {client : ModbusTcpClient Dev}.

(** What the two prompts and the writes of [control_heating] leave behind,
    case by case on the answers of the client. *)
Definition heating_outcome (w : World Dev) (rest : list string)
    (target_power system_state : Z) : World Dev :=
  let power_words := uint32_register_values target_power in
  let state_words := uint32_register_values system_state in
  let prompts := [Prompt EnterTargetPower; Prompt EnterSystemState] in
  let (power_response, d1) := write_registers (device w) 36 power_words in
  if isError power_response then
    mkWorld d1 rest
      (output w ++ prompts ++
         [ LogInfo (WritingToAddress 36 power_words);
           LogError (ErrorWritingToAddress 36) ])
      (calls w ++ [WriteRegisters 36 power_words])
  else
    let (state_response, d2) := write_registers d1 30 state_words in
    mkWorld d2 rest
      (output w ++ prompts ++
         LogInfo (WritingToAddress 36 power_words)
         :: LogInfo (WritingToAddress 30 state_words)
         :: (if isError state_response
             then [ LogError (ErrorWritingToAddress 30) ]
             else [ LogInfo (UpdatedHeatingSystem target_power system_state);
                    Print (UpdatedHeatingSystem target_power system_state) ]))
      (calls w ++ [WriteRegisters 36 power_words; WriteRegisters 30 state_words]).

(** A program that does not run out of fuel and leaves no more input than
    it found. *)
Definition within {A} (n : nat) (r : Res A * World Dev) : Prop :=
  fst r <> OutOfFuel /\ (List.length (stdin (snd r)) <= n)%nat.

Definition steady {A} (c : Prog Dev A) : Prop :=
  forall w, within (List.length (stdin w)) (c w).

End Outcomes.

(** The addresses of the register map. *)
Definition catalog_addresses : list Z :=
  map (fun entry => reg_address (snd entry)) registers.

(** A read of two registers at an address of the register map. *)
Definition catalog_read (c : Call) : Prop :=
  match c with
  | ReadHoldingRegisters address length =>
      In address catalog_addresses /\ length = 2
  | _ => False
  end.

(** A write of two 16-bit words at the given address. *)
Definition word_write (address : Z) (c : Call) : Prop :=
  exists w0 w1,
    c = WriteRegisters address [w0; w1] /\
    is_uint16 w0 = true /\ is_uint16 w1 = true.

(** A write of two 16-bit words at an address of the register map. *)
Definition catalog_write (c : Call) : Prop :=
  exists address, In address catalog_addresses /\ word_write address c.

Definition catalog_call (c : Call) : Prop := catalog_read c \/ catalog_write c.

(** A program whose calls on the client, whatever the device and the input,
    all satisfy [Q]. *)
Definition only {Dev A} (Q : Call -> Prop) (c : Prog Dev A) : Prop :=
  forall w, exists new, calls (snd (c w)) = calls w ++ new /\ Forall Q new.

(** A response that is an error or carries two 16-bit words. *)
Definition well_formed_read (r : Response) : Prop :=
  isError r = true \/ healthy_read r.

(** An entry of a register map that [read_all_values] reads: readable, of
    one of the two wire types. *)
Definition readable_entry (entry : string * Register) : Prop :=
  str_in (reg_access (snd entry)) ["r"; "rw"] = true /\
  (reg_type (snd entry) = "float" \/ reg_type (snd entry) = "uint32").

Definition is_print (e : Event) : bool :=
  match e with
  | Print _ => true
  | _ => false
  end.

(** A bank on which the reads of addresses 30 and 34 fail. *)
Definition bank_two_down : Bank := mkBank (fun _ => 7) [30; 34] [].

Definition two_down (d : Bank) : Prop :=
  fail_reads d = [30; 34] /\ forall a, is_uint16 (memory d a) = true.

(** A device that answers every read from a table, by address, and
    acknowledges every write. *)
Record Scripted : Type := mkScripted {
  answers : Z -> Response
}.

#[export] Instance Scripted_client : ModbusTcpClient Scripted := {
  read_holding_registers s address length := (answers s address, s);
  write_registers s address values := (mkResponse false [], s)
}.

(** Every read is answered with two words, but the read of address 34, which
    is answered with one word and no error flag. *)
Definition scripted_short_sptwh : Scripted :=
  mkScripted (fun address =>
                if address =? 34 then mkResponse false [7]
                else mkResponse false [0; 7]).

(** * Properties *)

(** ** UInt32 codec *)

Module UInt32.

(** The two words of [uint32_register_values], put together as
    [uint32_of_registers] does, are the value modulo [2^32]: bit for bit. *)
Lemma join_split (v : Z) :
  Z.lor (Z.shiftl (Z.land (Z.shiftr v 16) 0xFFFF) 16) (Z.land v 0xFFFF)
  = v mod 2 ^ 32.
Proof.
  change 0xFFFF with (Z.ones 16).
  apply Z.bits_inj'; intros n Hn.
  rewrite Z.lor_spec, Z.shiftl_spec, !Z.land_spec by assumption.
  destruct (Z.lt_ge_cases n 32) as [Hlt | Hge].
  - rewrite Z.mod_pow2_bits_low by lia.
    destruct (Z.lt_ge_cases n 16) as [Hlo | Hhi].
    + rewrite (Z.testbit_neg_r (Z.shiftr v 16) (n - 16)) by lia.
      rewrite (Z.ones_spec_low 16 n) by lia.
      now rewrite Bool.andb_true_r.
    + rewrite Z.shiftr_spec by lia.
      rewrite (Z.ones_spec_low 16 (n - 16)) by lia.
      rewrite (Z.ones_spec_high 16 n) by lia.
      replace (n - 16 + 16) with n by lia.
      now rewrite Bool.andb_true_r, Bool.andb_false_r, Bool.orb_false_r.
  - rewrite Z.mod_pow2_bits_high by lia.
    rewrite (Z.ones_spec_high 16 n) by lia.
    destruct (Z.lt_ge_cases n 16); [lia |].
    rewrite (Z.ones_spec_high 16 (n - 16)) by lia.
    now rewrite !Bool.andb_false_r.
Qed.

Lemma decode_encode (v : Z) :
  uint32_of_registers (uint32_register_values v) = Ok (v mod 2 ^ 32).
Proof.
  cbv [uint32_of_registers uint32_register_values getitem nth_error res_bind].
  now rewrite join_split.
Qed.

Lemma high_word (v : Z) : Z.land (Z.shiftr v 16) 0xFFFF = (v / 2 ^ 16) mod 2 ^ 16.
Proof.
  change 0xFFFF with (Z.ones 16).
  rewrite Z.land_ones by lia.
  now rewrite Z.shiftr_div_pow2 by lia.
Qed.

Lemma low_word (v : Z) : Z.land v 0xFFFF = v mod 2 ^ 16.
Proof.
  change 0xFFFF with (Z.ones 16).
  now rewrite Z.land_ones by lia.
Qed.

Lemma words_value (v : Z) :
  (v / 2 ^ 16) mod 2 ^ 16 * 2 ^ 16 + v mod 2 ^ 16 = v mod 2 ^ 32.
Proof.
  change (2 ^ 32) with (2 ^ 16 * 2 ^ 16).
  rewrite Z.rem_mul_r by lia.
  lia.
Qed.

End UInt32.

(** What a run of [write_uint32] does, whatever the value and the client. *)
Lemma write_uint32_run {Dev} {client : ModbusTcpClient Dev}
    (address value : Z) (w : World Dev) :
  write_uint32 address value w =
  let words := uint32_register_values value in
  let (response, d) := write_registers (device w) address words in
  (Ok (negb (isError response)),
   mkWorld d (stdin w)
     (output w ++ LogInfo (WritingToAddress address words)
        :: (if isError response then [LogError (ErrorWritingToAddress address)] else []))
     (calls w ++ [WriteRegisters address words])).
Proof.
  unfold write_uint32, bind, logging_info, logging_error, emit,
    client_write_registers, ret; simpl.
  destruct (write_registers (device w) address (uint32_register_values value))
    as [response d].
  destruct (isError response); simpl.
  - now rewrite <- app_assoc.
  - reflexivity.
Qed.

(** C1. A UInt32 value [v] in [0, 2^32 - 1], split into two words as
    [write_uint32] does and put together again as [read_uint32] does, is [v]
    again. *)
Theorem uint32_roundtrip (v : Z) :
  0 <= v <= 2 ^ 32 - 1 ->
  uint32_of_registers (uint32_register_values v) = Ok v.
Proof.
  intros Hv.
  rewrite UInt32.decode_encode.
  now rewrite Z.mod_small by lia.
Qed.

Lemma uint32_roundtrip_witness :
  0 <= 4294901761 <= 2 ^ 32 - 1 /\
  uint32_of_registers (uint32_register_values 4294901761) = Ok 4294901761.
Proof.
  split; [lia | apply (uint32_roundtrip 4294901761); lia].
Defined.

(** C9. For every integer [v], negative or beyond [2^32] included,
    [write_uint32] raises nothing and hands the client exactly the two words
    [(v >> 16) & 0xFFFF] and [v & 0xFFFF]; each is a 16-bit word and together
    they are [v] modulo [2^32]. *)
Theorem write_uint32_total_mod (Dev : Type) (client : ModbusTcpClient Dev)
    (w : World Dev) (address v : Z) :
  let w0 := Z.land (Z.shiftr v 16) 0xFFFF in
  let w1 := Z.land v 0xFFFF in
  (exists ok w',
      write_uint32 address v w = (Ok ok, w') /\
      calls w' = calls w ++ [WriteRegisters address [w0; w1]]) /\
  0 <= w0 <= 65535 /\
  0 <= w1 <= 65535 /\
  w0 * 2 ^ 16 + w1 = v mod 2 ^ 32.
Proof.
  intros w0 w1; split.
  - rewrite write_uint32_run; cbv zeta.
    destruct (write_registers (device w) address (uint32_register_values v))
      as [response d].
    now eexists _, _.
  - subst w0 w1.
    rewrite UInt32.high_word, UInt32.low_word.
    pose proof (Z.mod_pos_bound (v / 2 ^ 16) (2 ^ 16)).
    pose proof (Z.mod_pos_bound v (2 ^ 16)).
    pose proof (UInt32.words_value v).
    lia.
Qed.

(** C4, as the code has it.  [write_uint32] checks no range: for a value
    outside [0, 2^32 - 1] it raises nothing, its result is the client's
    answer alone, and the words it writes read back as the value modulo
    [2^32], which is another number. *)
Theorem write_uint32_out_of_range (Dev : Type) (client : ModbusTcpClient Dev)
    (w : World Dev) (address v : Z) :
  v < 0 \/ 2 ^ 32 - 1 < v ->
  exists w',
    write_uint32 address v w
    = (Ok (negb (isError (fst (write_registers (device w) address
                                 (uint32_register_values v))))), w') /\
    calls w' = calls w ++ [WriteRegisters address (uint32_register_values v)] /\
    uint32_of_registers (uint32_register_values v) = Ok (v mod 2 ^ 32) /\
    v mod 2 ^ 32 <> v.
Proof.
  intros Hv.
  rewrite write_uint32_run; cbv zeta.
  destruct (write_registers (device w) address (uint32_register_values v))
    as [response d]; cbn [fst calls].
  eexists; split; [reflexivity |]; split; [reflexivity |]; split.
  - apply UInt32.decode_encode.
  - pose proof (Z.mod_pos_bound v (2 ^ 32) eq_refl) as Hb.
    intros Heq; rewrite Heq in Hb; lia.
Qed.

Lemma write_uint32_out_of_range_witness :
  exists w',
    write_uint32 36 (-1) (start bank0 [])
    = (Ok (negb (isError (fst (write_registers (device (start bank0 [])) 36
                                 (uint32_register_values (-1)))))), w') /\
    calls w' = calls (start bank0 []) ++ [WriteRegisters 36 (uint32_register_values (-1))] /\
    uint32_of_registers (uint32_register_values (-1)) = Ok ((-1) mod 2 ^ 32) /\
    (-1) mod 2 ^ 32 <> -1.
Proof.
  apply (write_uint32_out_of_range Bank Bank_client (start bank0 []) 36 (-1)).
  left; lia.
Defined.

(** C4, as the claim has it, fails: [-1] and [2^32] are both encoded and
    written, as [[65535, 65535]] and [[0, 0]]. *)
Lemma write_uint32_accepts_out_of_range :
  (let (r, w) := write_uint32 36 (-1) (start bank0 []) in (r, calls w))
  = (Ok true, [WriteRegisters 36 [65535; 65535]]) /\
  (let (r, w) := write_uint32 36 (2 ^ 32) (start bank0 []) in (r, calls w))
  = (Ok true, [WriteRegisters 36 [0; 0]]).
Proof.
  split; reflexivity.
Qed.

(** ** Reading: the decoders and the length of a response *)

Lemma read_uint32_run {Dev} {client : ModbusTcpClient Dev}
    (address length : Z) (w : World Dev) :
  read_uint32 address length w =
  let (response, d) := read_holding_registers (device w) address length in
  if isError response
  then (Ok None, after_read w d address length [LogError (ErrorReadingAddress address)])
  else (res_map Some (uint32_of_registers (response_registers response)),
        after_read w d address length []).
Proof.
  unfold read_uint32, bind, client_read_holding_registers, logging_error, emit,
    lift, ret, after_read; simpl.
  destruct (read_holding_registers (device w) address length) as [response d].
  destruct (isError response); simpl; [reflexivity |].
  rewrite app_nil_r.
  now destruct (uint32_of_registers (response_registers response)).
Qed.

Lemma read_float_run {Dev} {client : ModbusTcpClient Dev}
    (address length : Z) (w : World Dev) :
  read_float address length w =
  let (response, d) := read_holding_registers (device w) address length in
  if isError response
  then (Ok None, after_read w d address length [LogError (ErrorReadingAddress address)])
  else (res_map Some (float_of_registers (response_registers response)),
        after_read w d address length []).
Proof.
  unfold read_float, bind, client_read_holding_registers, logging_error, emit,
    lift, ret, after_read; simpl.
  destruct (read_holding_registers (device w) address length) as [response d].
  destruct (isError response); simpl; [reflexivity |].
  rewrite app_nil_r.
  now destruct (float_of_registers (response_registers response)).
Qed.

(** C5, as the code has it.  Neither reader looks at the number of words of
    a response that is not an error: with more than two words the value is
    decoded from the first two and the rest is ignored, with fewer than two
    the index lookup raises [IndexError] out of the reader.  (A UInt32 is
    then always decoded; a Float32 is, unless [struct.pack] refuses a word
    beyond 16 bits.) *)
Theorem read_ignores_length (Dev : Type) (client : ModbusTcpClient Dev)
    (w : World Dev) (address length : Z) :
  let response := fst (read_holding_registers (device w) address length) in
  isError response = false ->
  List.length (response_registers response) <> 2%nat ->
  match response_registers response with
  | r0 :: r1 :: _ =>
      fst (read_uint32 address length w) = Ok (Some (Z.lor (Z.shiftl r0 16) r1)) /\
      fst (read_float address length w) = res_map Some (float_of_registers [r0; r1])
  | _ =>
      fst (read_uint32 address length w) = Raise IndexError /\
      fst (read_float address length w) = Raise IndexError
  end.
Proof.
  intros response Herr Hlen; subst response.
  rewrite read_uint32_run, read_float_run.
  destruct (read_holding_registers (device w) address length) as [response d].
  cbn [fst] in *; rewrite Herr; cbn [fst].
  destruct (response_registers response) as [| r0 [| r1 rest]]; split; reflexivity.
Qed.

Lemma read_ignores_length_witness :
  let w := start (bank_of [(30, 1); (31, 2); (32, 3)]) [] in
  let response := fst (read_holding_registers (device w) 30 3) in
  isError response = false /\
  List.length (response_registers response) <> 2%nat /\
  match response_registers response with
  | r0 :: r1 :: _ =>
      fst (read_uint32 30 3 w) = Ok (Some (Z.lor (Z.shiftl r0 16) r1)) /\
      fst (read_float 30 3 w) = res_map Some (float_of_registers [r0; r1])
  | _ =>
      fst (read_uint32 30 3 w) = Raise IndexError /\
      fst (read_float 30 3 w) = Raise IndexError
  end.
Proof.
  intros w response.
  split; [reflexivity |]; split; [vm_compute; discriminate |].
  apply (read_ignores_length Bank Bank_client w 30 3);
    [reflexivity | vm_compute; discriminate].
Defined.

(** C5, as the claim has it, fails: three words are decoded to a value, for
    both wire types, and one word raises [IndexError] instead of giving a
    failure result. *)
Lemma decode_without_length_check :
  uint32_of_registers [1; 2; 3] = Ok 65538 /\
  float_of_registers [16914; 26214; 3]
  = Ok (S754_finite false 5150991859056640 (-47)) /\
  fst (read_uint32 30 3 (start (bank_of [(30, 1); (31, 2); (32, 3)]) []))
  = Ok (Some 65538) /\
  fst (read_uint32 30 1 (start (bank_of [(30, 1)]) [])) = Raise IndexError /\
  fst (read_float 30 1 (start (bank_of [(30, 1)]) [])) = Raise IndexError.
Proof.
  repeat split; vm_compute; reflexivity.
Qed.

(** ** The batch reader *)

Section BatchSteps.

Context {Dev : Type} {client : ModbusTcpClient Dev}.

(** One pass of the loop of [read_all_values] over a readable register,
    whatever the client answers: the loop goes on to the rest of the
    catalog after a value and after an error response alike. *)
Lemma read_all_loop_step (key : string) (reg : Register)
    (rest : list (string * Register)) (value : option (option PyVal))
    (decode : list Z -> Res PyVal) (w : World Dev) :
  str_in (reg_access reg) ["r"; "rw"] = true ->
  (reg_type reg = "float"
     /\ decode = (fun regs => res_map PyFloat (float_of_registers regs))) \/
  (reg_type reg = "uint32"
     /\ decode = (fun regs => res_map PyInt (uint32_of_registers regs))) ->
  read_all_loop ((key, reg) :: rest) value w =
  let (response, d) :=
    read_holding_registers (device w) (reg_address reg) (reg_length reg) in
  if isError response then
    read_all_loop rest (Some None)
      (after_read w d (reg_address reg) (reg_length reg) (failed_read_events reg))
  else
    match decode (response_registers response) with
    | Ok v =>
        read_all_loop rest (Some (Some v))
          (after_read w d (reg_address reg) (reg_length reg) (value_events reg v))
    | Raise e => (Raise e, after_read w d (reg_address reg) (reg_length reg) [])
    | OutOfFuel => (OutOfFuel, after_read w d (reg_address reg) (reg_length reg) [])
    end.
Proof.
  intros Hacc [[Hty Hdec] | [Hty Hdec]]; subst decode;
    cbn [read_all_loop]; rewrite Hacc, Hty; cbn [String.eqb Ascii.eqb Bool.eqb];
    unfold bind at 1; unfold bind at 1.
  - rewrite read_float_run.
    destruct (read_holding_registers (device w) (reg_address reg) (reg_length reg))
      as [response d].
    destruct (isError response).
    + unfold ret, bind, print, logging_error, emit, after_read, failed_read_events;
        cbn [option_map device stdin output calls].
      now rewrite <- !app_assoc.
    + destruct (float_of_registers (response_registers response)) as [f | e |];
        cbn [res_map]; try reflexivity.
      unfold ret, bind, print, logging_info, emit, after_read, value_events;
        cbn [option_map device stdin output calls].
      now rewrite app_nil_r, <- !app_assoc.
  - rewrite read_uint32_run.
    destruct (read_holding_registers (device w) (reg_address reg) (reg_length reg))
      as [response d].
    destruct (isError response).
    + unfold ret, bind, print, logging_error, emit, after_read, failed_read_events;
        cbn [option_map device stdin output calls].
      now rewrite <- !app_assoc.
    + destruct (uint32_of_registers (response_registers response)) as [f | e |];
        cbn [res_map]; try reflexivity.
      unfold ret, bind, print, logging_info, emit, after_read, value_events;
        cbn [option_map device stdin output calls].
      now rewrite app_nil_r, <- !app_assoc.
Qed.

End BatchSteps.

Lemma float_of_registers_words (w0 w1 : Z) :
  is_uint16 w0 = true -> is_uint16 w1 = true ->
  float_of_registers [w0; w1]
  = Ok (IEEE.float_to_double
          (IEEE.bits_to_float
             (w0 / 256 * 2 ^ 24 + w0 mod 256 * 2 ^ 16 + w1 / 256 * 2 ^ 8 + w1 mod 256))).
Proof.
  intros H0 H1.
  cbv [float_of_registers getitem nth_error res_bind struct_pack_HH].
  now rewrite H0, H1.
Qed.

Ltac batch_step decode :=
  rewrite (read_all_loop_step _ _ _ _ decode)
    by (first [reflexivity | left; split; reflexivity | right; split; reflexivity]);
  cbn [reg_address reg_length reg_description reg_unit device after_read].

(** Takes the next answer of the client, with what is known about it:
    [Hinv] keeps the invariant, [Hans] describes the answer. *)
Ltac next_answer Hinv Hans HP Hnew Hresp :=
  match goal with
  | |- context [read_holding_registers ?d ?a 2] =>
      let E := fresh "E" in
      pose proof (Hinv d a HP) as Hnew;
      pose proof (Hans d HP) as Hresp;
      first [specialize (Hresp a ltac:(lia)) | idtac];
      destruct (read_holding_registers d a 2) as [? ?] eqn:E;
      try rewrite E in Hnew; try rewrite E in Hresp; clear E;
      cbn [fst snd] in Hnew, Hresp
  end.

(** The run of [read_all_values] when the client answers the read of
    address 34 with an error and every other read with two words.  ([P] is
    what stays true of the device while it is read.) *)
Lemma batch_read_sptwh_scenario (Dev : Type) (client : ModbusTcpClient Dev)
    (P : Dev -> Prop) (w : World Dev) :
  P (device w) ->
  (forall d a, P d -> P (snd (read_holding_registers d a 2))) ->
  (forall d, P d -> forall a, a <> 34 ->
             healthy_read (fst (read_holding_registers d a 2))) ->
  (forall d, P d -> isError (fst (read_holding_registers d 34 2)) = true) ->
  exists (state spp ni : Z) (sptw : spec_float) (w' : World Dev),
    read_all_values w = (Ok tt, w') /\
    calls w' = calls w ++
      [ ReadHoldingRegisters 30 2; ReadHoldingRegisters 32 2;
        ReadHoldingRegisters 34 2; ReadHoldingRegisters 36 2;
        ReadHoldingRegisters 38 2 ] /\
    output w' = output w ++
      [ Print (RegisterValue "State" 30 (PyInt state) "");
        LogInfo (RegisterValue "State" 30 (PyInt state) "");
        Print (RegisterValue "Target Water Temperature" 32 (PyFloat sptw) "°C");
        LogInfo (RegisterValue "Target Water Temperature" 32 (PyFloat sptw) "°C");
        LogError (ErrorReadingAddress 34);
        Print (FailedToRead "Hysteresis Water Temperature" 34);
        LogError (FailedToRead "Hysteresis Water Temperature" 34);
        Print (RegisterValue "Target Heating Power" 36 (PyInt spp) "W");
        LogInfo (RegisterValue "Target Heating Power" 36 (PyInt spp) "W");
        Print (RegisterValue "Soldering Interval" 38 (PyInt ni) "ms");
        LogInfo (RegisterValue "Soldering Interval" 38 (PyInt ni) "ms") ].
Proof.
  intros HP0 Hinv Hgood Hbad.
  unfold read_all_values, registers.
  batch_step (fun regs => res_map PyInt (uint32_of_registers regs)).
  next_answer Hinv Hgood HP0 HP1 Hstate.
  destruct Hstate as [-> (a0 & a1 & -> & _ & _)].
  cbn [uint32_of_registers getitem nth_error res_bind res_map].
  batch_step (fun regs => res_map PyFloat (float_of_registers regs)).
  next_answer Hinv Hgood HP1 HP2 Hsptw.
  destruct Hsptw as [-> (b0 & b1 & -> & Hb0 & Hb1)].
  rewrite (float_of_registers_words b0 b1 Hb0 Hb1); cbn [res_map].
  batch_step (fun regs => res_map PyFloat (float_of_registers regs)).
  next_answer Hinv Hbad HP2 HP3 Hsptwh.
  rewrite Hsptwh.
  batch_step (fun regs => res_map PyInt (uint32_of_registers regs)).
  next_answer Hinv Hgood HP3 HP4 Hspp.
  destruct Hspp as [-> (c0 & c1 & -> & _ & _)].
  cbn [uint32_of_registers getitem nth_error res_bind res_map].
  batch_step (fun regs => res_map PyInt (uint32_of_registers regs)).
  next_answer Hinv Hgood HP4 HP5 Hni.
  destruct Hni as [-> (e0 & e1 & -> & _ & _)].
  cbn [uint32_of_registers getitem nth_error res_bind res_map].
  cbn [read_all_loop ret].
  eexists _, _, _, _, _; split; [reflexivity |].
  unfold after_read, value_events, failed_read_events;
    cbn [calls output device stdin reg_address reg_length reg_description reg_unit].
  split; rewrite <- !app_assoc; reflexivity.
Qed.

(** ** Running the monad one step at a time *)

Section Steps.

Context {Dev : Type} {client : ModbusTcpClient Dev}.

Lemma bind_run {A B} (c : Prog Dev A) (k : A -> Prog Dev B) (w : World Dev) :
  bind c k w =
  match c w with
  | (Ok a, w') => k a w'
  | (Raise e, w') => (Raise e, w')
  | (OutOfFuel, w') => (OutOfFuel, w')
  end.
Proof. reflexivity. Qed.

Lemma input_run (prompt : Msg) (w : World Dev) (line : string) (rest : list string) :
  stdin w = line :: rest ->
  input prompt w
  = (Ok line, mkWorld (device w) rest (output w ++ [Prompt prompt]) (calls w)).
Proof.
  intros H; unfold input; now rewrite H.
Qed.

Lemma change_value_run (w : World Dev) :
  change_value w =
  change_loop (S (List.length (stdin w))) (mkEditLocals None None)
    (mkWorld (device w) (stdin w) (output w ++ editor_header) (calls w)).
Proof.
  unfold change_value, registers, editor_header.
  cbn [print_writable reg_access reg_description reg_address reg_unit
       String.eqb Ascii.eqb Bool.eqb].
  unfold bind, print, emit, ret;
    cbn [device stdin output calls].
  now rewrite <- !app_assoc.
Qed.

Lemma change_loop_quit (fuel : nat) (locals : EditLocals) (w : World Dev)
    (rest : list string) :
  stdin w = "q" :: rest ->
  change_loop (S fuel) locals w
  = (Ok tt, mkWorld (device w) rest (output w ++ [Prompt EnterRegisterKey]) (calls w)).
Proof.
  intros H; cbn [change_loop].
  rewrite bind_run, (input_run _ _ _ _ H).
  reflexivity.
Qed.

Lemma change_loop_key (fuel : nat) (locals : EditLocals) (w : World Dev)
    (reg_key : string) (rest : list string) (reg : Register) :
  stdin w = reg_key :: rest ->
  String.eqb reg_key "q" = false ->
  dict_get registers reg_key = Some reg ->
  String.eqb (reg_access reg) "rw" = true ->
  change_loop (S fuel) locals w
  = bind (change_one reg_key reg locals) (change_loop fuel)
      (mkWorld (device w) rest (output w ++ [Prompt EnterRegisterKey]) (calls w)).
Proof.
  intros H Hq Hreg Hrw; cbn [change_loop].
  rewrite bind_run, (input_run _ _ _ _ H), Hq, Hreg, Hrw.
  reflexivity.
Qed.

(** One edit of a UInt32 register with a well-formed integer. *)
Lemma change_one_uint32 (reg_key : string) (reg : Register) (locals : EditLocals)
    (w : World Dev) (line : string) (rest : list string) (z : Z) :
  reg_type reg = "uint32" ->
  stdin w = line :: rest ->
  py_int line = Ok z ->
  change_one reg_key reg locals w =
  let words := uint32_register_values z in
  let (response, d) := write_registers (device w) (reg_address reg) words in
  (Ok (mkEditLocals (Some (PyInt z)) (Some (negb (isError response)))),
   mkWorld d rest
     (output w ++
        Prompt (EnterNewValue reg_key (reg_unit reg))
        :: LogInfo (WritingToAddress (reg_address reg) words)
        :: (if isError response
            then [ LogError (ErrorWritingToAddress (reg_address reg));
                   Print FailedToUpdate ]
            else [ LogInfo (SuccessfullyUpdated (reg_description reg) (PyInt z) (reg_unit reg));
                   Print (SuccessfullyUpdated (reg_description reg) (PyInt z) (reg_unit reg)) ]))
     (calls w ++ [WriteRegisters (reg_address reg) words])).
Proof.
  intros Hty Hin Hint.
  unfold change_one; rewrite Hty; cbn [String.eqb Ascii.eqb Bool.eqb].
  rewrite bind_run, bind_run, (input_run _ _ _ _ Hin).
  rewrite bind_run; unfold lift at 1; rewrite Hint.
  unfold ret at 1.
  rewrite bind_run, bind_run, write_uint32_run; cbv zeta.
  cbn [device stdin output calls].
  destruct (write_registers (device w) (reg_address reg) (uint32_register_values z))
    as [response d].
  unfold ret at 1.
  destruct (isError response); cbn [negb];
    unfold bind, print, logging_info, emit, ret; cbn [device stdin output calls];
    now rewrite <- !app_assoc.
Qed.

End Steps.

(** ** The register editor *)

(** C6. Entering key "state" and value "1" makes [change_value] issue one
    call on the client, [write_registers(30, [0, 1])], and nothing else; when
    the client acknowledges it, the update is reported as a success. *)
Theorem editor_writes_state_once (Dev : Type) (client : ModbusTcpClient Dev)
    (d : Dev) :
  isError (fst (write_registers d 30 [0; 1])) = false ->
  exists w',
    change_value (start d ["state"; "1"; "q"]) = (Ok tt, w') /\
    calls w' = [WriteRegisters 30 [0; 1]] /\
    output w' =
      editor_header ++
      [ Prompt EnterRegisterKey;
        Prompt (EnterNewValue "state" "");
        LogInfo (WritingToAddress 30 [0; 1]);
        LogInfo (SuccessfullyUpdated "State" (PyInt 1) "");
        Print (SuccessfullyUpdated "State" (PyInt 1) "");
        Prompt EnterRegisterKey ].
Proof.
  intros Hack.
  rewrite change_value_run; cbn [List.length stdin start].
  rewrite (change_loop_key _ _ _ "state" ["1"; "q"]
             (mkRegister 30 "uint32" 2 "" "State" "rw")) by reflexivity.
  rewrite bind_run.
  rewrite (change_one_uint32 "state" _ _ _ "1" ["q"] 1) by reflexivity.
  cbv zeta; cbn [reg_address reg_unit reg_description device stdin output calls start].
  change (uint32_register_values 1) with [0; 1].
  destruct (write_registers d 30 [0; 1]) as [response d'].
  cbn [fst] in Hack; rewrite Hack.
  rewrite (change_loop_quit _ _ _ []) by reflexivity.
  eexists; repeat split.
Qed.

Lemma editor_writes_state_once_witness :
  isError (fst (write_registers bank0 30 [0; 1])) = false /\
  exists w',
    change_value (start bank0 ["state"; "1"; "q"]) = (Ok tt, w') /\
    calls w' = [WriteRegisters 30 [0; 1]] /\
    output w' =
      editor_header ++
      [ Prompt EnterRegisterKey;
        Prompt (EnterNewValue "state" "");
        LogInfo (WritingToAddress 30 [0; 1]);
        LogInfo (SuccessfullyUpdated "State" (PyInt 1) "");
        Print (SuccessfullyUpdated "State" (PyInt 1) "");
        Prompt EnterRegisterKey ].
Proof.
  split; [reflexivity |].
  apply (editor_writes_state_once Bank Bank_client bank0); reflexivity.
Defined.

(** C7, on the code.  Entering key "sptw" and value "abc" makes
    [change_value] raise [ValueError] out of the editor, with no call made
    on the client: nothing in [change_value] catches it. *)
Theorem editor_bad_float_raises (Dev : Type) (client : ModbusTcpClient Dev)
    (d : Dev) (rest : list string) :
  exists w',
    change_value (start d ("sptw" :: "abc" :: rest)) = (Raise ValueError, w') /\
    calls w' = [] /\
    stdin w' = rest /\
    device w' = d.
Proof.
  rewrite change_value_run.
  rewrite (change_loop_key _ _ _ "sptw" ("abc" :: rest)
             (mkRegister 32 "float" 2 "°C" "Target Water Temperature" "rw"))
    by reflexivity.
  rewrite bind_run.
  unfold change_one; cbn [reg_type String.eqb Ascii.eqb Bool.eqb].
  rewrite bind_run, bind_run, (input_run _ _ "abc" rest) by reflexivity.
  rewrite bind_run.
  change (py_float "abc") with (@Raise spec_float ValueError).
  unfold lift at 1.
  eexists; repeat split.
Qed.

(** The sibling path: [control_heating] catches the [ValueError] of a
    malformed number and reports it. *)
Lemma control_heating_bad_number (Dev : Type) (client : ModbusTcpClient Dev)
    (d : Dev) (rest : list string) :
  control_heating (start d ("abc" :: rest))
  = (Ok tt, mkWorld d rest [Prompt EnterTargetPower; Print InvalidInput] []).
Proof.
  unfold control_heating, try_except_ValueError.
  rewrite bind_run, (input_run _ _ "abc" rest) by reflexivity.
  rewrite bind_run.
  change (py_int "abc") with (@Raise Z ValueError).
  reflexivity.
Qed.

(** With nothing to catch it, the [ValueError] ends [main]: the menu is not
    shown again and the client is never closed. *)
Lemma main_ends_on_bad_float :
  let (r, w) := main (start bank0 ["2"; "sptw"; "abc"; "q"; "4"]) in
  r = Raise ValueError /\
  stdin w = ["q"; "4"] /\
  ~ In Close (calls w).
Proof.
  vm_compute.
  repeat split.
  intuition discriminate.
Qed.

(** ** The heating controller *)

Section Heating.

Context {Dev : Type} {client : ModbusTcpClient Dev}.

Lemma control_heating_run (w : World Dev) (line1 line2 : string)
    (rest : list string) (target_power system_state : Z) :
  stdin w = line1 :: line2 :: rest ->
  py_int line1 = Ok target_power ->
  py_int line2 = Ok system_state ->
  control_heating w = (Ok tt, heating_outcome w rest target_power system_state).
Proof.
  intros Hin H1 H2.
  unfold control_heating, try_except_ValueError, heating_outcome.
  rewrite bind_run, (input_run _ _ _ _ Hin).
  rewrite bind_run; unfold lift at 1; rewrite H1.
  rewrite bind_run, (input_run _ _ line2 rest) by reflexivity.
  rewrite bind_run; unfold lift at 1; rewrite H2.
  rewrite bind_run; unfold lift at 1.
  change (subscript registers "spp")
    with (Ok (mkRegister 36 "uint32" 2 "W" "Target Heating Power" "rw")).
  cbn [reg_address].
  rewrite bind_run, write_uint32_run; cbv zeta.
  cbn [device stdin output calls].
  destruct (write_registers (device w) 36 (uint32_register_values target_power))
    as [power_response d1].
  destruct (isError power_response); cbn [negb].
  - unfold bind, ret; cbn [device stdin output calls].
    now rewrite <- !app_assoc.
  - rewrite bind_run, bind_run; unfold lift at 1.
    change (subscript registers "state")
      with (Ok (mkRegister 30 "uint32" 2 "" "State" "rw")).
    cbn [reg_address].
    rewrite write_uint32_run; cbv zeta.
    cbn [device stdin output calls].
    destruct (write_registers d1 30 (uint32_register_values system_state))
      as [state_response d2].
    destruct (isError state_response); cbn [negb];
      unfold bind, ret, logging_info, print, emit; cbn [device stdin output calls];
      now rewrite <- !app_assoc.
Qed.

End Heating.

(** C8. [control_heating] writes the power register (address 36) first and
    the state register (address 30) second.  It reports the update as done
    exactly when the client acknowledges both writes.  When the power write
    is acknowledged and the state write is not, the log names the failed
    write to address 30, nothing reports success, and the power write has
    been made all the same: both calls are in the record, the new power
    stays written.  (The power and the state are typed as two plain lines
    that [int()] takes as numbers.) *)
Theorem heating_two_writes (Dev : Type) (client : ModbusTcpClient Dev)
    (d : Dev) (line1 line2 : string) (target_power system_state : Z) :
  plain_line line1 = true ->
  plain_line line2 = true ->
  py_int line1 = Ok target_power ->
  py_int line2 = Ok system_state ->
  let power_write := write_registers d 36 (uint32_register_values target_power) in
  let state_write :=
    write_registers (snd power_write) 30 (uint32_register_values system_state) in
  let power_ok := negb (isError (fst power_write)) in
  let state_ok := negb (isError (fst state_write)) in
  let done := Print (UpdatedHeatingSystem target_power system_state) in
  exists w',
    control_heating (start d [line1; line2]) = (Ok tt, w') /\
    (exists later,
        calls w' = WriteRegisters 36 (uint32_register_values target_power) :: later /\
        (power_ok = true ->
         later = [WriteRegisters 30 (uint32_register_values system_state)])) /\
    (In done (output w') <-> power_ok = true /\ state_ok = true) /\
    (power_ok = true -> state_ok = false ->
     In (LogError (ErrorWritingToAddress 30)) (output w') /\
     ~ In (LogError (ErrorWritingToAddress 36)) (output w') /\
     ~ In done (output w') /\
     calls w' = [ WriteRegisters 36 (uint32_register_values target_power);
                  WriteRegisters 30 (uint32_register_values system_state) ] /\
     device w' = snd state_write).
Proof.
  intros _ _ H1 H2 power_write state_write power_ok state_ok done.
  rewrite (control_heating_run _ line1 line2 [] target_power system_state)
    by (reflexivity || assumption).
  eexists; split; [reflexivity |].
  subst power_ok state_ok state_write power_write done.
  unfold heating_outcome; cbn [start device output calls].
  destruct (write_registers d 36 (uint32_register_values target_power))
    as [power_response d1]; cbn [fst snd].
  destruct (isError power_response); cbn [negb].
  - cbn [calls output app In].
    split; [eexists; split; [reflexivity | discriminate] |].
    split; [| discriminate].
    split; [| intros []; discriminate].
    intros H; repeat (destruct H as [H | H]; [discriminate |]); destruct H.
  - destruct (write_registers d1 30 (uint32_register_values system_state))
      as [state_response d2]; cbn [fst snd].
    destruct (isError state_response); cbn [negb calls output device app In].
    + split; [eexists; split; reflexivity |].
      split.
      * split; [| intros []; discriminate].
        intros H; repeat (destruct H as [H | H]; [discriminate |]); destruct H.
      * intros _ _.
        split; [intuition |].
        split; [intros H; repeat (destruct H as [H | H]; [discriminate |]); destruct H |].
        split; [intros H; repeat (destruct H as [H | H]; [discriminate |]); destruct H |].
        split; reflexivity.
    + split; [eexists; split; reflexivity |].
      split; [| discriminate].
      split; [intros _; split; reflexivity | intros _; intuition].
Qed.

Lemma heating_two_writes_witness :
  let d := mkBank (fun _ => 0) [] [30] in
  plain_line "500" = true /\
  plain_line "1" = true /\
  py_int "500" = Ok 500 /\
  py_int "1" = Ok 1 /\
  let power_write := write_registers d 36 (uint32_register_values 500) in
  let state_write := write_registers (snd power_write) 30 (uint32_register_values 1) in
  let power_ok := negb (isError (fst power_write)) in
  let state_ok := negb (isError (fst state_write)) in
  let done := Print (UpdatedHeatingSystem 500 1) in
  exists w',
    control_heating (start d ["500"; "1"]) = (Ok tt, w') /\
    (exists later,
        calls w' = WriteRegisters 36 (uint32_register_values 500) :: later /\
        (power_ok = true -> later = [WriteRegisters 30 (uint32_register_values 1)])) /\
    (In done (output w') <-> power_ok = true /\ state_ok = true) /\
    (power_ok = true -> state_ok = false ->
     In (LogError (ErrorWritingToAddress 30)) (output w') /\
     ~ In (LogError (ErrorWritingToAddress 36)) (output w') /\
     ~ In done (output w') /\
     calls w' = [ WriteRegisters 36 (uint32_register_values 500);
                  WriteRegisters 30 (uint32_register_values 1) ] /\
     device w' = snd state_write).
Proof.
  intros d.
  split; [reflexivity |]; split; [reflexivity |].
  split; [reflexivity |]; split; [reflexivity |].
  apply (heating_two_writes Bank Bank_client d "500" "1" 500 1); reflexivity.
Defined.

(** C10. When the client answers the power write with an error,
    [control_heating] makes no second call: the write to address 36 is the
    only call on the client, the device is as that one call left it, and no
    line of the log or the console mentions a write to address 30.  (The
    power and the state are typed as two plain lines that [int()] takes as
    numbers.) *)
Theorem heating_stops_after_power_failure (Dev : Type) (client : ModbusTcpClient Dev)
    (d : Dev) (line1 line2 : string) (target_power system_state : Z) :
  plain_line line1 = true ->
  plain_line line2 = true ->
  py_int line1 = Ok target_power ->
  py_int line2 = Ok system_state ->
  let power_write := write_registers d 36 (uint32_register_values target_power) in
  isError (fst power_write) = true ->
  exists w',
    control_heating (start d [line1; line2]) = (Ok tt, w') /\
    calls w' = [WriteRegisters 36 (uint32_register_values target_power)] /\
    (forall values, ~ In (WriteRegisters 30 values) (calls w')) /\
    device w' = snd power_write /\
    output w' =
      [ Prompt EnterTargetPower; Prompt EnterSystemState;
        LogInfo (WritingToAddress 36 (uint32_register_values target_power));
        LogError (ErrorWritingToAddress 36) ].
Proof.
  intros _ _ H1 H2 power_write Hfail; subst power_write.
  rewrite (control_heating_run _ line1 line2 [] target_power system_state)
    by (reflexivity || assumption).
  eexists; split; [reflexivity |].
  unfold heating_outcome; cbn [start device output calls].
  destruct (write_registers d 36 (uint32_register_values target_power))
    as [power_response d1]; cbn [fst snd] in *.
  rewrite Hfail; cbn [calls output device app].
  repeat split.
  intros values [H | []]; discriminate.
Qed.

Lemma heating_stops_after_power_failure_witness :
  let d := mkBank (fun a => a) [] [36] in
  let power_write := write_registers d 36 (uint32_register_values 500) in
  plain_line "500" = true /\
  plain_line "1" = true /\
  py_int "500" = Ok 500 /\
  py_int "1" = Ok 1 /\
  isError (fst power_write) = true /\
  exists w',
    control_heating (start d ["500"; "1"]) = (Ok tt, w') /\
    calls w' = [WriteRegisters 36 (uint32_register_values 500)] /\
    (forall values, ~ In (WriteRegisters 30 values) (calls w')) /\
    device w' = snd power_write /\
    output w' =
      [ Prompt EnterTargetPower; Prompt EnterSystemState;
        LogInfo (WritingToAddress 36 (uint32_register_values 500));
        LogError (ErrorWritingToAddress 36) ].
Proof.
  intros d power_write.
  split; [reflexivity |]; split; [reflexivity |].
  split; [reflexivity |]; split; [reflexivity |].
  split; [reflexivity |].
  apply (heating_stops_after_power_failure Bank Bank_client d "500" "1" 500 1);
    reflexivity.
Defined.

(** ** Float32 codec *)

Module Float32.

Import IEEE.

(** *** Number of binary digits *)

Lemma digits2_pos_bounds (m : positive) :
  2 ^ (Zpos (digits2_pos m) - 1) <= Zpos m < 2 ^ Zpos (digits2_pos m).
Proof.
  induction m as [m IH | m IH |]; cbn [digits2_pos].
  - rewrite Pos2Z.inj_succ.
    replace (Z.succ (Zpos (digits2_pos m)) - 1) with (Z.succ (Zpos (digits2_pos m) - 1)) by lia.
    rewrite !Z.pow_succ_r by lia. lia.
  - rewrite Pos2Z.inj_succ.
    replace (Z.succ (Zpos (digits2_pos m)) - 1) with (Z.succ (Zpos (digits2_pos m) - 1)) by lia.
    rewrite !Z.pow_succ_r by lia. lia.
  - cbn. lia.
Qed.

Lemma digits2_pos_shift (m k : positive) :
  Zpos (digits2_pos (Pos.iter xO m k)) = Zpos (digits2_pos m) + Zpos k.
Proof.
  induction k as [| k IH] using Pos.peano_ind.
  - cbn [Pos.iter digits2_pos]. lia.
  - rewrite Pos.iter_succ; cbn [digits2_pos]. lia.
Qed.

(** A mantissa below [2^n] has at most [n] digits, and back. *)
Lemma digits2_pos_le (m : positive) (n : Z) :
  0 <= n -> (Zpos m < 2 ^ n <-> Zpos (digits2_pos m) <= n).
Proof.
  intros Hn. pose proof (digits2_pos_bounds m) as [Hlo Hhi].
  split; intros H.
  - destruct (Z.le_gt_cases (Zpos (digits2_pos m)) n) as [| Hgt]; [assumption |].
    assert (2 ^ n <= 2 ^ (Zpos (digits2_pos m) - 1))
      by (apply Z.pow_le_mono_r; lia).
    lia.
  - assert (2 ^ Zpos (digits2_pos m) <= 2 ^ n) by (apply Z.pow_le_mono_r; lia).
    lia.
Qed.

(** *** Shifting a mantissa left and right again *)

Lemma iter_pos_iter {A} (f : A -> A) (n : positive) (x : A) :
  iter_pos f n x = Pos.iter f x n.
Proof.
  revert x; induction n as [n IH | n IH |]; intros x; cbn [iter_pos Pos.iter].
  - now rewrite !IH, !Pos.iter_swap.
  - now rewrite !IH.
  - reflexivity.
Qed.

Lemma shr_shifted (m k : positive) :
  iter_pos shr_1 k (Build_shr_record (Zpos (Pos.iter xO m k)) false false)
  = Build_shr_record (Zpos m) false false.
Proof.
  rewrite iter_pos_iter.
  revert m; induction k as [| k IH] using Pos.peano_ind; intros m.
  - reflexivity.
  - rewrite Pos.iter_succ, Pos.iter_succ_r, IH.
    reflexivity.
Qed.

Lemma shl_align_down (mx : positive) (ex ex' : Z) :
  ex' < ex ->
  shl_align mx ex ex' = (Pos.iter xO mx (Z.to_pos (ex - ex')), ex').
Proof.
  intros H; unfold shl_align.
  destruct (ex' - ex) as [| p | p] eqn:E; try lia.
  replace (ex - ex') with (Zpos p) by lia.
  reflexivity.
Qed.

Lemma shl_align_keep (mx : positive) (ex ex' : Z) :
  ex <= ex' -> shl_align mx ex ex' = (mx, ex).
Proof.
  intros H; unfold shl_align.
  destruct (ex' - ex) as [| p | p] eqn:E; try reflexivity; lia.
Qed.

(** *** Rounding a value that needs no rounding *)

Section Exact.

Variables prec emax : Z.

Lemma shr_fexp_exact (m : positive) (e : Z) :
  fexp prec emax (Zpos (digits2_pos m) + e) = e ->
  shr_fexp prec emax (Zpos m) e loc_Exact
  = (Build_shr_record (Zpos m) false false, e).
Proof.
  intros H; unfold shr_fexp; cbn [Zdigits2 shr_record_of_loc].
  now rewrite H, Z.sub_diag.
Qed.

Lemma shr_fexp_shifted (m k : positive) (e : Z) :
  fexp prec emax (Zpos (digits2_pos m) + e) = e ->
  shr_fexp prec emax (Zpos (Pos.iter xO m k)) (e - Zpos k) loc_Exact
  = (Build_shr_record (Zpos m) false false, e).
Proof.
  intros H; unfold shr_fexp; cbn [Zdigits2 shr_record_of_loc].
  rewrite digits2_pos_shift.
  replace (Zpos (digits2_pos m) + Zpos k + (e - Zpos k))
    with (Zpos (digits2_pos m) + e) by lia.
  rewrite H.
  replace (e - (e - Zpos k)) with (Zpos k) by lia.
  unfold shr; rewrite shr_shifted.
  f_equal; lia.
Qed.

(** A mantissa already in canonical form is left as it is. *)
Lemma binary_round_aux_exact (s : bool) (m : positive) (e : Z) :
  fexp prec emax (Zpos (digits2_pos m) + e) = e ->
  e <= emax - prec ->
  binary_round_aux prec emax s (Zpos m) e loc_Exact = S754_finite s m e.
Proof.
  intros H Hmax; unfold binary_round_aux.
  rewrite (shr_fexp_exact m e H);
    cbn [shr_m loc_of_shr_record round_nearest_even].
  rewrite (shr_fexp_exact m e H); cbn [shr_m].
  now rewrite (proj2 (Z.leb_le _ _) Hmax).
Qed.

(** A canonical mantissa shifted left by [k] bits is shifted back, with
    nothing lost. *)
Lemma binary_round_aux_shifted (s : bool) (m k : positive) (e : Z) :
  fexp prec emax (Zpos (digits2_pos m) + e) = e ->
  e <= emax - prec ->
  binary_round_aux prec emax s (Zpos (Pos.iter xO m k)) (e - Zpos k) loc_Exact
  = S754_finite s m e.
Proof.
  intros H Hmax; unfold binary_round_aux.
  rewrite (shr_fexp_shifted m k e H);
    cbn [shr_m loc_of_shr_record round_nearest_even].
  rewrite (shr_fexp_exact m e H); cbn [shr_m].
  now rewrite (proj2 (Z.leb_le _ _) Hmax).
Qed.

End Exact.

(** *** Valid binary32 values *)

Lemma valid32_finite (s : bool) (m : positive) (e : Z) :
  valid32 (S754_finite s m e) = true ->
  Z.max (Zpos (digits2_pos m) + e - 24) (-149) = e /\ e <= 104.
Proof.
  unfold valid32, valid_binary, bounded, canonical_mantissa, fexp, emin,
    prec32, emax32.
  intros H; apply Bool.andb_true_iff in H as [Hc Hb].
  apply Z.eqb_eq in Hc; apply Z.leb_le in Hb.
  change (3 - 128 - 24) with (-149) in Hc.
  change (128 - 24) with 104 in Hb.
  now split.
Qed.

(** Widening a valid binary32 value: the mantissa is shifted left to 53
    bits, exactly. *)
Lemma float_to_double_finite (s : bool) (m : positive) (e : Z) :
  valid32 (S754_finite s m e) = true ->
  let k := Z.to_pos (53 - Zpos (digits2_pos m)) in
  float_to_double (S754_finite s m e)
  = S754_finite s (Pos.iter xO m k) (e - Zpos k).
Proof.
  intros Hv k.
  apply valid32_finite in Hv as [Hc Hmax].
  assert (Hd : Zpos (digits2_pos m) <= 24) by lia.
  assert (Hk : Zpos k = 53 - Zpos (digits2_pos m)) by (subst k; lia).
  unfold float_to_double, binary_round, prec64, emax64.
  assert (Hf : fexp 53 1024 (Zpos (digits2_pos m) + e) = e - Zpos k)
    by (unfold fexp, emin; lia).
  rewrite Hf, shl_align_down by lia.
  replace (Z.to_pos (e - (e - Zpos k))) with k by lia.
  apply binary_round_aux_exact; [| lia].
  rewrite digits2_pos_shift.
  unfold fexp, emin; lia.
Qed.

(** Narrowing it again gives the binary32 value back. *)
Lemma double_to_float_to_double (x : spec_float) :
  valid32 x = true ->
  double_to_float (float_to_double x) = x.
Proof.
  destruct x as [s | s | | s m e]; try reflexivity.
  intros Hv.
  rewrite (float_to_double_finite s m e Hv); cbv zeta.
  apply valid32_finite in Hv as [Hc Hmax].
  set (k := Z.to_pos (53 - Zpos (digits2_pos m))).
  assert (Hk : Zpos k = 53 - Zpos (digits2_pos m)) by (subst k; lia).
  unfold double_to_float, binary_round, prec32, emax32.
  assert (Hf : fexp 24 128 (Zpos (digits2_pos (Pos.iter xO m k)) + (e - Zpos k)) = e)
    by (rewrite digits2_pos_shift; unfold fexp, emin; lia).
  rewrite Hf, shl_align_keep by lia.
  apply binary_round_aux_shifted; [| lia].
  unfold fexp, emin; lia.
Qed.

(** What Python holds is a valid double. *)
Lemma float_to_double_valid64 (x : spec_float) :
  valid32 x = true -> valid64 (float_to_double x) = true.
Proof.
  destruct x as [s | s | | s m e]; try reflexivity.
  intros Hv.
  rewrite (float_to_double_finite s m e Hv); cbv zeta.
  apply valid32_finite in Hv as [Hc Hmax].
  set (k := Z.to_pos (53 - Zpos (digits2_pos m))).
  assert (Hk : Zpos k = 53 - Zpos (digits2_pos m)) by (subst k; lia).
  unfold valid64, valid_binary, bounded, canonical_mantissa, prec64, emax64.
  rewrite digits2_pos_shift.
  apply Bool.andb_true_iff; split.
  - apply Z.eqb_eq; unfold fexp, emin; lia.
  - apply Z.leb_le; lia.
Qed.

(** *** The interchange encoding *)

Lemma fields (s : bool) (expo frac : Z) :
  0 <= expo < 256 -> 0 <= frac < 2 ^ 23 ->
  let b := sign_field s + expo * 2 ^ 23 + frac in
  (2 ^ 31 <=? b) = s /\ (b / 2 ^ 23) mod 256 = expo /\ b mod 2 ^ 23 = frac
  /\ 0 <= b < 2 ^ 32.
Proof.
  intros He Hf b; subst b.
  change (2 ^ 23) with 8388608 in *.
  change (2 ^ 31) with 2147483648.
  change (2 ^ 32) with 4294967296.
  destruct s; unfold sign_field; change (2 ^ 31) with 2147483648.
  - split; [apply Z.leb_le; lia |].
    repeat split; Z.to_euclidean_division_equations; lia.
  - split; [apply Z.leb_gt; lia |].
    repeat split; Z.to_euclidean_division_equations; lia.
Qed.

(** The three shapes of the encoding of a valid binary32 value that is
    not a NaN. *)
Lemma float_to_bits_fields (x : spec_float) :
  valid32 x = true -> x <> S754_nan ->
  exists (s : bool) (expo frac : Z),
    0 <= expo < 256 /\ 0 <= frac < 2 ^ 23 /\
    float_to_bits x = sign_field s + expo * 2 ^ 23 + frac /\
    bits_to_float (sign_field s + expo * 2 ^ 23 + frac) = x.
Proof.
  intros Hv Hnan.
  assert (Hdec : forall s expo frac,
             0 <= expo < 256 -> 0 <= frac < 2 ^ 23 ->
             bits_to_float (sign_field s + expo * 2 ^ 23 + frac)
             = (if expo =? 0 then
                  match frac with
                  | Zpos m => S754_finite s m (-149)
                  | _ => S754_zero s
                  end
                else if expo =? 255 then
                  (if frac =? 0 then S754_infinity s else S754_nan)
                else
                  match frac + 2 ^ 23 with
                  | Zpos m => S754_finite s m (expo - 150)
                  | _ => S754_nan
                  end)).
  { intros s expo frac He Hf.
    destruct (fields s expo frac He Hf) as (Hs & Hexp & Hfrac & _).
    unfold bits_to_float; now rewrite Hs, Hexp, Hfrac. }
  destruct x as [s | s | | s m e]; [| | congruence |].
  - exists s, 0, 0; repeat split; try lia.
    + cbn [float_to_bits]; lia.
    + now rewrite Hdec by lia.
  - exists s, 255, 0; repeat split; try lia.
    + cbn [float_to_bits]; lia.
    + now rewrite Hdec by lia.
  - pose proof (valid32_finite s m e Hv) as [Hc Hmax].
    pose proof (digits2_pos_bounds m) as [Hlo Hhi].
    cbn [float_to_bits].
    destruct (Z.leb_spec (2 ^ 23) (Zpos m)) as [Hnorm | Hsub].
    + assert (Hd : Zpos (digits2_pos m) = 24).
      { destruct (Z.le_gt_cases (Zpos (digits2_pos m)) 23) as [Hle |]; [| lia].
        apply (proj2 (digits2_pos_le m 23 ltac:(lia))) in Hle; lia. }
      rewrite Hd in Hhi.
      exists s, (e + 150), (Zpos m - 2 ^ 23).
      assert (0 <= e + 150 < 256) by lia.
      assert (0 <= Zpos m - 2 ^ 23 < 2 ^ 23)
        by (change (2 ^ 24) with (2 * 2 ^ 23) in Hhi; lia).
      repeat split; try lia.
      rewrite Hdec by lia.
      destruct (Z.eqb_spec (e + 150) 0); [lia |].
      destruct (Z.eqb_spec (e + 150) 255); [lia |].
      replace (Zpos m - 2 ^ 23 + 2 ^ 23) with (Zpos m) by lia.
      f_equal; lia.
    + assert (Hd : Zpos (digits2_pos m) <= 23)
        by (apply (proj1 (digits2_pos_le m 23 ltac:(lia))); lia).
      assert (e = -149) by lia; subst e.
      exists s, 0, (Zpos m); repeat split; try lia.
      now rewrite Hdec by lia.
Qed.

Lemma bits_to_float_to_bits (x : spec_float) :
  valid32 x = true -> x <> S754_nan ->
  bits_to_float (float_to_bits x) = x /\ 0 <= float_to_bits x < 2 ^ 32.
Proof.
  intros Hv Hnan.
  destruct (float_to_bits_fields x Hv Hnan)
    as (s & expo & frac & He & Hf & Hbits & Hback).
  rewrite Hbits; split; [assumption |].
  now destruct (fields s expo frac He Hf) as (_ & _ & _ & Hrange).
Qed.

(** *** Bytes and words: big-endian both ways *)

Lemma words_of_bytes (b : Z) :
  0 <= b < 2 ^ 32 ->
  struct_unpack_HH
    [(b / 2 ^ 24) mod 256; (b / 2 ^ 16) mod 256; (b / 2 ^ 8) mod 256; b mod 256]
  = Ok [b / 2 ^ 16; b mod 2 ^ 16].
Proof.
  intros Hb; cbn [struct_unpack_HH].
  change (2 ^ 32) with 4294967296 in Hb.
  change (2 ^ 24) with 16777216; change (2 ^ 16) with 65536;
    change (2 ^ 8) with 256.
  do 2 f_equal; [| f_equal]; Z.to_euclidean_division_equations; lia.
Qed.

Lemma bits_of_words (b : Z) :
  0 <= b < 2 ^ 32 ->
  float_of_registers [b / 2 ^ 16; b mod 2 ^ 16]
  = Ok (float_to_double (bits_to_float b)).
Proof.
  intros Hb.
  change (2 ^ 32) with 4294967296 in Hb.
  rewrite float_of_registers_words.
  - do 3 f_equal.
    change (2 ^ 24) with 16777216; change (2 ^ 16) with 65536;
      change (2 ^ 8) with 256.
    Z.to_euclidean_division_equations; lia.
  - unfold is_uint16; change (2 ^ 16) with 65536.
    apply Bool.andb_true_iff; split; apply Z.leb_le;
      Z.to_euclidean_division_equations; lia.
  - unfold is_uint16; change (2 ^ 16) with 65536.
    apply Bool.andb_true_iff; split; apply Z.leb_le;
      Z.to_euclidean_division_equations; lia.
Qed.

End Float32.

(** C2. A finite binary32 value [f], held by Python as the double
    [float_to_double f], is written by [write_float] as the two halves of its
    binary32 encoding, high word first, and those two words are read by
    [read_float] as the very same double: the two directions agree on the
    order of the words, and nothing of [f] is lost. *)
Theorem float_roundtrip (f : spec_float) :
  IEEE.valid32 f = true ->
  IEEE.is_finite f = true ->
  let value := IEEE.float_to_double f in
  let bits := IEEE.float_to_bits f in
  float_register_values value = Ok [bits / 2 ^ 16; bits mod 2 ^ 16] /\
  float_of_registers [bits / 2 ^ 16; bits mod 2 ^ 16] = Ok value /\
  IEEE.double_to_float value = f.
Proof.
  intros Hv Hfin value bits.
  assert (Hnan : f <> S754_nan) by (intros ->; discriminate).
  destruct (Float32.bits_to_float_to_bits f Hv Hnan) as [Hback Hrange].
  pose proof (Float32.double_to_float_to_double f Hv) as Hcast.
  fold value in Hcast; fold bits in Hback, Hrange.
  split; [| split; [| assumption]].
  - unfold float_register_values, struct_pack_f.
    rewrite Hcast.
    replace (IEEE.is_infinite f) with false by (now destruct f).
    cbn [andb res_bind]; fold bits.
    now apply Float32.words_of_bytes.
  - rewrite Float32.bits_of_words by assumption.
    now rewrite Hback.
Qed.

Lemma float_roundtrip_witness :
  let f := S754_finite false 9594470 (-18) in
  IEEE.valid32 f = true /\
  IEEE.is_finite f = true /\
  let value := IEEE.float_to_double f in
  let bits := IEEE.float_to_bits f in
  float_register_values value = Ok [bits / 2 ^ 16; bits mod 2 ^ 16] /\
  float_of_registers [bits / 2 ^ 16; bits mod 2 ^ 16] = Ok value /\
  IEEE.double_to_float value = f.
Proof.
  intros f.
  split; [reflexivity |]; split; [reflexivity |].
  apply (float_roundtrip f); reflexivity.
Defined.

(** ** Writing to a register bank and reading back *)

Lemma bank_load_store (mem : Z -> Z) (address x y : Z) :
  bank_load (bank_store mem address [x; y]) address 2 = [x; y].
Proof.
  cbn [bank_load bank_store].
  rewrite Z.eqb_refl.
  destruct (Z.eqb_spec address (address + 1)) as [H | _]; [lia |].
  now rewrite Z.eqb_refl.
Qed.

(** On a bank that answers, a UInt32 written is the UInt32 read. *)
Lemma bank_write_read_uint32 (mem : Z -> Z) (address v : Z) :
  0 <= v <= 2 ^ 32 - 1 ->
  let (written, w) := write_uint32 address v (start (mkBank mem [] []) []) in
  written = Ok true /\ fst (read_uint32 address 2 w) = Ok (Some v).
Proof.
  intros Hv.
  rewrite write_uint32_run; cbv zeta.
  cbn [write_registers Bank_client device start fail_writes existsb isError negb].
  split; [reflexivity |].
  rewrite read_uint32_run.
  cbn [read_holding_registers Bank_client device fail_reads existsb isError
       response_registers memory fst].
  change (Z.to_nat 2) with 2%nat.
  unfold uint32_register_values at 1.
  rewrite bank_load_store.
  fold (uint32_register_values v).
  rewrite UInt32.decode_encode, Z.mod_small by lia.
  reflexivity.
Qed.

(** On a bank that answers, a finite binary32 value written is the value
    read. *)
Lemma bank_write_read_float (mem : Z -> Z) (address : Z) (f : spec_float) :
  IEEE.valid32 f = true ->
  IEEE.is_finite f = true ->
  let value := IEEE.float_to_double f in
  let (written, w) := write_float address value (start (mkBank mem [] []) []) in
  written = Ok true /\ fst (read_float address 2 w) = Ok (Some value).
Proof.
  intros Hv Hfin value.
  assert (Hnan : f <> S754_nan) by (intros ->; discriminate).
  destruct (Float32.bits_to_float_to_bits f Hv Hnan) as [Hback Hrange].
  pose proof (Float32.double_to_float_to_double f Hv) as Hcast.
  assert (Hwords : float_register_values value
                   = Ok [IEEE.float_to_bits f / 2 ^ 16; IEEE.float_to_bits f mod 2 ^ 16]).
  { unfold float_register_values, struct_pack_f; subst value.
    rewrite Hcast.
    replace (IEEE.is_infinite f) with false by (now destruct f).
    cbn [andb res_bind].
    now apply Float32.words_of_bytes. }
  unfold write_float.
  rewrite bind_run; unfold lift at 1; rewrite Hwords.
  unfold bind, logging_info, emit, client_write_registers;
    cbn [write_registers Bank_client device start fail_writes existsb isError
         stdin output calls].
  unfold ret at 1.
  split; [reflexivity |].
  rewrite read_float_run.
  cbn [read_holding_registers Bank_client device fail_reads existsb isError
       response_registers memory fst].
  change (Z.to_nat 2) with 2%nat.
  rewrite bank_load_store, Float32.bits_of_words by assumption.
  now rewrite Hback.
Qed.

(** ** The loops never run out of fuel

    [OutOfFuel] is an artefact of the model: no run of the program gives it,
    because every pass of a [while] loop takes a line of input and nothing
    gives lines back. *)

Section Totality.

Context {Dev : Type} {client : ModbusTcpClient Dev}.

Local Abbreviation steady := (steady (Dev := Dev)).

Lemma steady_ret {A} (a : A) : steady (ret a).
Proof. intros w; split; [discriminate | apply le_n]. Qed.

Lemma steady_raise {A} (e : PyExc) : steady (@raise Dev A e).
Proof. intros w; split; [discriminate | apply le_n]. Qed.

Lemma steady_lift {A} (r : Res A) : r <> OutOfFuel -> steady (lift r).
Proof. intros H w; split; [exact H | apply le_n]. Qed.

Lemma steady_emit (e : Event) : steady (emit e).
Proof. intros w; split; [discriminate | apply le_n]. Qed.

Lemma steady_input (prompt : Msg) : steady (input prompt).
Proof.
  intros w; unfold input, within.
  destruct (stdin w) as [| line rest]; cbn; split;
    try discriminate; auto.
Qed.

Lemma steady_read (address length : Z) :
  steady (client_read_holding_registers address length).
Proof.
  intros w; unfold client_read_holding_registers.
  destruct (read_holding_registers (device w) address length).
  split; [discriminate | apply le_n].
Qed.

Lemma steady_write (address : Z) (values : list Z) :
  steady (client_write_registers address values).
Proof.
  intros w; unfold client_write_registers.
  destruct (write_registers (device w) address values).
  split; [discriminate | apply le_n].
Qed.

Lemma steady_bind {A B} (c : Prog Dev A) (k : A -> Prog Dev B) :
  steady c -> (forall a, steady (k a)) -> steady (bind c k).
Proof.
  intros Hc Hk w; unfold bind.
  specialize (Hc w); unfold within in *.
  destruct (c w) as [[a | e |] w1]; cbn [fst snd] in *.
  - specialize (Hk a w1); unfold within in Hk; split; [tauto | lia].
  - split; [discriminate | tauto].
  - tauto.
Qed.

Lemma steady_try (body handler : Prog Dev unit) :
  steady body -> steady handler -> steady (try_except_ValueError body handler).
Proof.
  intros Hb Hh w; unfold try_except_ValueError.
  specialize (Hb w); unfold within in *.
  destruct (body w) as [[a | e |] w1]; cbn [fst snd] in *; try tauto.
  destruct e; cbn [fst snd]; try tauto.
  specialize (Hh w1); unfold within in Hh; split; [tauto | lia].
Qed.

End Totality.

(** The pure parts give a value or raise. *)
Lemma res_bind_fuel {A B} (r : Res A) (k : A -> Res B) :
  r <> OutOfFuel -> (forall a, k a <> OutOfFuel) -> res_bind r k <> OutOfFuel.
Proof.
  intros Hr Hk; destruct r; cbn; [apply Hk | discriminate | congruence].
Qed.

Lemma getitem_fuel {A} (l : list A) (i : nat) : getitem l i <> OutOfFuel.
Proof. unfold getitem; destruct (nth_error l i); discriminate. Qed.

Lemma uint32_of_registers_fuel (regs : list Z) : uint32_of_registers regs <> OutOfFuel.
Proof.
  unfold uint32_of_registers.
  repeat (apply res_bind_fuel; [apply getitem_fuel | intros ?]).
  discriminate.
Qed.

Lemma float_of_registers_fuel (regs : list Z) : float_of_registers regs <> OutOfFuel.
Proof.
  unfold float_of_registers.
  repeat (apply res_bind_fuel; [apply getitem_fuel | intros ?]).
  apply res_bind_fuel.
  - unfold struct_pack_HH; destruct (_ && _); discriminate.
  - intros bs; unfold struct_unpack_f.
    destruct bs as [| ? [| ? [| ? [| ? [| ? ?]]]]]; discriminate.
Qed.

Lemma float_register_values_fuel (value : spec_float) :
  float_register_values value <> OutOfFuel.
Proof.
  unfold float_register_values; apply res_bind_fuel.
  - unfold struct_pack_f; destruct (_ && _); discriminate.
  - intros bs; unfold struct_unpack_HH.
    destruct bs as [| ? [| ? [| ? [| ? [| ? ?]]]]]; discriminate.
Qed.

Lemma py_int_fuel (s : string) : py_int s <> OutOfFuel.
Proof. unfold py_int; destruct (Literal.int_literal _); discriminate. Qed.

Lemma py_float_fuel (s : string) : py_float s <> OutOfFuel.
Proof. unfold py_float; destruct (Literal.float_literal _); discriminate. Qed.

Lemma float_of_int_fuel (z : Z) : float_of_int z <> OutOfFuel.
Proof. unfold float_of_int; destruct (IEEE.is_infinite _); discriminate. Qed.

Lemma subscript_fuel {V} (d : list (string * V)) (key : string) :
  subscript d key <> OutOfFuel.
Proof. unfold subscript; destruct (dict_get d key); discriminate. Qed.

Create HintDb steady.

#[local] Hint Resolve steady_ret steady_raise steady_emit steady_input
  steady_read steady_write uint32_of_registers_fuel float_of_registers_fuel
  float_register_values_fuel py_int_fuel py_float_fuel float_of_int_fuel
  subscript_fuel : steady.

(** Takes a program apart along its binds, branches and matches. *)
Ltac steady_step :=
  match goal with
  | |- steady (bind _ _) => apply steady_bind; [| intros ?]
  | |- steady (try_except_ValueError _ _) => apply steady_try
  | |- steady (lift _) => apply steady_lift
  | |- steady (print _) => apply steady_emit
  | |- steady (logging_info _) => apply steady_emit
  | |- steady (logging_error _) => apply steady_emit
  | |- steady (if ?b then _ else _) => destruct b
  | |- steady (match ?x with _ => _ end) => destruct x
  | |- _ => solve [auto with steady]
  end.

Section TotalProgram.

Context {Dev : Type} {client : ModbusTcpClient Dev}.

Local Abbreviation steady := (steady (Dev := Dev)).

Lemma steady_read_float (address length : Z) : steady (read_float address length).
Proof. unfold read_float; repeat steady_step. Qed.

Lemma steady_read_uint32 (address length : Z) : steady (read_uint32 address length).
Proof. unfold read_uint32; repeat steady_step. Qed.

Lemma steady_write_float (address : Z) (value : spec_float) :
  steady (write_float address value).
Proof. unfold write_float; repeat steady_step. Qed.

Lemma steady_write_uint32 (address value : Z) : steady (write_uint32 address value).
Proof. unfold write_uint32; repeat steady_step. Qed.

Lemma steady_read_all_loop (items : list (string * Register))
    (value : option (option PyVal)) :
  steady (read_all_loop items value).
Proof.
  revert value; induction items as [| [key reg] rest IH]; intros value;
    cbn [read_all_loop].
  - apply steady_ret.
  - pose proof steady_read_float; pose proof steady_read_uint32.
    repeat steady_step; auto.
Qed.

Lemma steady_print_writable (items : list (string * Register)) :
  steady (print_writable (Dev := Dev) items).
Proof.
  induction items as [| [key reg] rest IH]; cbn [print_writable].
  - apply steady_ret.
  - repeat steady_step; auto.
Qed.

Lemma steady_change_one (reg_key : string) (reg : Register) (locals : EditLocals) :
  steady (change_one reg_key reg locals).
Proof.
  pose proof steady_write_float; pose proof steady_write_uint32.
  unfold change_one; repeat steady_step; auto.
Qed.

Lemma steady_control_heating : steady control_heating.
Proof.
  pose proof steady_write_uint32.
  unfold control_heating; repeat steady_step; auto.
Qed.

Lemma steady_print_menu (items : list (string * string)) :
  steady (print_menu (Dev := Dev) items).
Proof.
  induction items as [| [key option] rest IH]; cbn [print_menu].
  - apply steady_ret.
  - repeat steady_step; auto.
Qed.

(** With more fuel than lines of input left, the loop of [change_value]
    ends before the fuel does. *)
Lemma change_loop_fuel (fuel : nat) (locals : EditLocals) (w : World Dev) :
  (List.length (stdin w) < fuel)%nat ->
  within (List.length (stdin w)) (change_loop fuel locals w).
Proof.
  revert locals w; induction fuel as [| fuel IH]; intros locals w Hfuel; [lia |].
  cbn [change_loop]; rewrite bind_run.
  destruct (stdin w) as [| reg_key rest] eqn:Hin.
  - unfold input; rewrite Hin; split; [discriminate | cbn; lia].
  - rewrite (input_run _ _ _ _ Hin).
    cbn [List.length] in *.
    set (w1 := mkWorld (device w) rest (output w ++ [Prompt EnterRegisterKey]) (calls w)).
    assert (Hinvalid :
              within (S (List.length rest))
                (bind (print InvalidKey) (fun _ => change_loop fuel locals) w1)).
    { unfold bind, print, emit; cbn [device stdin output calls w1].
      match goal with
      | |- context [change_loop fuel locals ?w2] =>
          destruct (IH locals w2) as [H1 H2]; [cbn; lia |]; cbn [stdin] in H2
      end.
      split; [assumption | lia]. }
    destruct (String.eqb reg_key "q"); [split; [discriminate | cbn; lia] |].
    destruct (dict_get registers reg_key) as [reg |]; [| exact Hinvalid].
    destruct (negb (String.eqb (reg_access reg) "rw")); [exact Hinvalid |].
    rewrite bind_run.
    pose proof (steady_change_one reg_key reg locals w1) as [Hone Hlen].
    destruct (change_one reg_key reg locals w1) as [[locals' | e |] w2];
      cbn [fst snd stdin w1] in *.
    + destruct (IH locals' w2) as [H1 H2]; [lia |].
      split; [assumption | lia].
    + split; [discriminate | cbn [snd]; lia].
    + congruence.
Qed.

Lemma steady_change_value : steady change_value.
Proof.
  intros w; rewrite change_value_run.
  match goal with
  | |- context [change_loop ?f ?l ?w2] =>
      destruct (change_loop_fuel f l w2) as [H1 H2]; [cbn; lia |];
      cbn [stdin] in H2
  end.
  split; assumption.
Qed.

Lemma main_loop_fuel (fuel : nat) (w : World Dev) :
  (List.length (stdin w) < fuel)%nat ->
  within (List.length (stdin w)) (main_loop fuel w).
Proof.
  revert w; induction fuel as [| fuel IH]; intros w Hfuel; [lia |].
  cbn [main_loop]; rewrite bind_run.
  unfold print at 1, emit at 1.
  rewrite bind_run.
  pose proof (steady_print_menu menu_options
                (mkWorld (device w) (stdin w) (output w ++ [Print Menu]) (calls w)))
    as [Hm Hml].
  destruct (print_menu menu_options _) as [[[] | e |] w0];
    cbn [fst snd stdin] in *;
    [| split; [discriminate | assumption] | congruence].
  rewrite bind_run.
  destruct (stdin w0) as [| choice rest] eqn:Hin.
  - unfold input; rewrite Hin; split; [discriminate | cbn; lia].
  - rewrite (input_run _ _ _ _ Hin).
    cbn [List.length] in *.
    set (w1 := mkWorld (device w0) rest (output w0 ++ [Prompt EnterYourChoice]) (calls w0)).
    assert (Hnext : forall (c : Prog Dev unit),
               steady c ->
               within (List.length (stdin w)) (bind c (fun _ => main_loop fuel) w1)).
    { intros c Hc; rewrite bind_run.
      destruct (Hc w1) as [Hc1 Hc2].
      destruct (c w1) as [[[] | e |] w2]; cbn [fst snd stdin w1] in *.
      - destruct (IH w2) as [H1 H2]; [lia |].
        split; [assumption | lia].
      - split; [discriminate | cbn [snd]; lia].
      - congruence. }
    destruct (String.eqb choice "1").
    { apply (Hnext (bind (print CurrentValues) (fun _ => read_all_values))).
      apply steady_bind; [apply steady_emit | intros _; apply steady_read_all_loop]. }
    destruct (String.eqb choice "2"); [apply Hnext, steady_change_value |].
    destruct (String.eqb choice "3"); [apply Hnext, steady_control_heating |].
    destruct (String.eqb choice "4"); [split; [discriminate | cbn; lia] |].
    apply Hnext, steady_emit.
Qed.

(** [main] gives a result or raises, for every device and every input. *)
Theorem main_never_out_of_fuel (w : World Dev) : fst (main w) <> OutOfFuel.
Proof.
  assert (Hmain : steady main); [| apply Hmain].
  unfold main.
  apply steady_bind; [intros w0; split; [discriminate | apply le_n] | intros _].
  apply steady_bind; [apply steady_emit | intros _].
  apply steady_bind; [apply steady_read_all_loop | intros _].
  apply steady_bind;
    [| intros _ w0; split; [discriminate | apply le_n]].
  intros w0; apply main_loop_fuel; lia.
Qed.

Theorem change_value_never_out_of_fuel (w : World Dev) :
  fst (change_value w) <> OutOfFuel.
Proof. apply steady_change_value. Qed.

End TotalProgram.

(** * Further properties of the program *)

(** ** Words read, written back *)

Lemma join_words (w0 w1 : Z) :
  0 <= w0 -> 0 <= w1 < 2 ^ 16 ->
  Z.lor (Z.shiftl w0 16) w1 = w0 * 2 ^ 16 + w1.
Proof.
  intros H0 H1.
  rewrite <- Z.add_lor_land, Z.shiftl_mul_pow2 by lia.
  assert (Hdisjoint : Z.land (w0 * 2 ^ 16) w1 = 0).
  { apply Z.bits_inj'; intros n Hn.
    rewrite Z.land_spec, Z.bits_0.
    destruct (Z.lt_ge_cases n 16) as [Hlo | Hhi].
    - now rewrite Z.mul_pow2_bits_low.
    - rewrite <- (Z.mod_small w1 (2 ^ 16)) by lia.
      rewrite Z.mod_pow2_bits_high by lia.
      apply Bool.andb_false_r. }
  rewrite Hdisjoint; lia.
Qed.

Lemma is_uint16_range (x : Z) : is_uint16 x = true <-> 0 <= x <= 65535.
Proof.
  unfold is_uint16; rewrite Bool.andb_true_iff, !Z.leb_le; tauto.
Qed.

(** The other way round from C1: two 16-bit words read as a UInt32 give a
    value in [0, 2^32 - 1], and writing that value gives the same two words
    back, in the same order. *)
Theorem uint32_words_roundtrip (w0 w1 : Z) :
  is_uint16 w0 = true -> is_uint16 w1 = true ->
  exists v,
    uint32_of_registers [w0; w1] = Ok v /\
    0 <= v <= 2 ^ 32 - 1 /\
    uint32_register_values v = [w0; w1].
Proof.
  intros H0 H1.
  apply is_uint16_range in H0, H1.
  exists (w0 * 2 ^ 16 + w1).
  assert (Hjoin : uint32_of_registers [w0; w1] = Ok (w0 * 2 ^ 16 + w1)).
  { cbv [uint32_of_registers getitem nth_error res_bind].
    rewrite join_words; [reflexivity | lia |].
    change (2 ^ 16) with 65536; lia. }
  split; [exact Hjoin |].
  change (2 ^ 32) with 4294967296; change (2 ^ 16) with 65536.
  split; [lia |].
  unfold uint32_register_values.
  rewrite UInt32.high_word, UInt32.low_word.
  change (2 ^ 16) with 65536.
  f_equal; [| f_equal]; Z.to_euclidean_division_equations; lia.
Qed.

Lemma uint32_words_roundtrip_witness :
  is_uint16 65535 = true /\ is_uint16 1 = true /\
  exists v,
    uint32_of_registers [65535; 1] = Ok v /\
    0 <= v <= 2 ^ 32 - 1 /\
    uint32_register_values v = [65535; 1].
Proof.
  split; [reflexivity |]; split; [reflexivity |].
  apply (uint32_words_roundtrip 65535 1); reflexivity.
Defined.

Lemma valid32_intro (s : bool) (m : positive) (e : Z) :
  Z.max (Zpos (digits2_pos m) + e - 24) (-149) = e -> e <= 104 ->
  IEEE.valid32 (S754_finite s m e) = true.
Proof.
  intros Hc Hmax.
  unfold IEEE.valid32, valid_binary, bounded, canonical_mantissa, fexp, emin,
    IEEE.prec32, IEEE.emax32.
  change (3 - 128 - 24) with (-149); change (128 - 24) with 104.
  apply Bool.andb_true_iff; split; [apply Z.eqb_eq | apply Z.leb_le]; assumption.
Qed.

(** Every 32-bit pattern decodes to a valid binary32 value, and every
    pattern but those of the NaNs is the encoding of the value it decodes
    to. *)
Lemma bits_to_float_spec (b : Z) :
  0 <= b < 2 ^ 32 ->
  IEEE.valid32 (IEEE.bits_to_float b) = true /\
  (IEEE.bits_to_float b <> S754_nan ->
   IEEE.float_to_bits (IEEE.bits_to_float b) = b).
Proof.
  intros Hb.
  change (2 ^ 32) with 4294967296 in Hb.
  unfold IEEE.bits_to_float.
  set (s := 2 ^ 31 <=? b).
  assert (Hs : IEEE.sign_field s = b / 2 ^ 31 * 2 ^ 31).
  { subst s; unfold IEEE.sign_field; change (2 ^ 31) with 2147483648.
    destruct (Z.leb_spec 2147483648 b); Z.to_euclidean_division_equations; lia. }
  assert (Hsplit : b = b / 2 ^ 31 * 2 ^ 31 + (b / 2 ^ 23) mod 256 * 2 ^ 23 + b mod 2 ^ 23).
  { change (2 ^ 31) with 2147483648; change (2 ^ 23) with 8388608.
    Z.to_euclidean_division_equations; lia. }
  assert (He : 0 <= (b / 2 ^ 23) mod 256 < 256) by (apply Z.mod_pos_bound; lia).
  assert (Hf : 0 <= b mod 2 ^ 23 < 2 ^ 23) by (apply Z.mod_pos_bound; lia).
  set (expo := (b / 2 ^ 23) mod 256) in *.
  set (frac := b mod 2 ^ 23) in *.
  rewrite <- Hs in Hsplit.
  destruct (Z.eqb_spec expo 0) as [He0 | He0].
  - destruct frac as [| m | m] eqn:Hfrac; [| | lia].
    + split; [reflexivity |]. intros _; cbn [IEEE.float_to_bits]; lia.
    + assert (Hd : Zpos (digits2_pos m) <= 23)
        by (apply (proj1 (Float32.digits2_pos_le m 23 ltac:(lia))); lia).
      split; [apply valid32_intro; lia |].
      intros _; cbn [IEEE.float_to_bits].
      destruct (Z.leb_spec (2 ^ 23) (Zpos m)); lia.
  - destruct (Z.eqb_spec expo 255) as [He255 | He255].
    + destruct (Z.eqb_spec frac 0) as [Hf0 | Hf0].
      * split; [reflexivity |]. intros _; cbn [IEEE.float_to_bits]; lia.
      * split; [reflexivity | congruence].
    + destruct (frac + 2 ^ 23) as [| m | m] eqn:Hm;
        [split; [reflexivity | congruence] | | split; [reflexivity | congruence]].
      assert (Hlo : 2 ^ 23 <= Zpos m) by lia.
      assert (Hhi : Zpos m < 2 ^ 24) by (change (2 ^ 24) with (2 * 2 ^ 23); lia).
      assert (Hd : Zpos (digits2_pos m) = 24).
      { pose proof (proj1 (Float32.digits2_pos_le m 24 ltac:(lia)) Hhi).
        destruct (Z.le_gt_cases (Zpos (digits2_pos m)) 23) as [Hle |]; [| lia].
        apply (proj2 (Float32.digits2_pos_le m 23 ltac:(lia))) in Hle; lia. }
      split; [apply valid32_intro; lia |].
      intros _; cbn [IEEE.float_to_bits].
      destruct (Z.leb_spec (2 ^ 23) (Zpos m)); lia.
Qed.

(** The other way round from C2: two 16-bit words that are not the pattern
    of a NaN, read as a Float32, give a value that is written as the same two
    words, in the same order. *)
Theorem float_words_roundtrip (w0 w1 : Z) (value : spec_float) :
  is_uint16 w0 = true -> is_uint16 w1 = true ->
  float_of_registers [w0; w1] = Ok value ->
  value <> S754_nan ->
  float_register_values value = Ok [w0; w1].
Proof.
  intros H0 H1 Hread Hnan.
  rewrite (float_of_registers_words w0 w1 H0 H1) in Hread.
  apply is_uint16_range in H0, H1.
  set (b := w0 / 256 * 2 ^ 24 + w0 mod 256 * 2 ^ 16 + w1 / 256 * 2 ^ 8 + w1 mod 256) in *.
  assert (Hb : b = w0 * 65536 + w1).
  { subst b; change (2 ^ 24) with 16777216; change (2 ^ 16) with 65536;
      change (2 ^ 8) with 256.
    Z.to_euclidean_division_equations; lia. }
  assert (Hrange : 0 <= b < 2 ^ 32) by (change (2 ^ 32) with 4294967296; lia).
  destruct (bits_to_float_spec b Hrange) as [Hvalid Hbits].
  injection Hread as Hvalue.
  set (x := IEEE.bits_to_float b) in *.
  assert (Hx : x <> S754_nan) by (intros Heq; rewrite Heq in Hvalue; cbn in Hvalue; congruence).
  specialize (Hbits Hx).
  pose proof (Float32.double_to_float_to_double x Hvalid) as Hcast.
  rewrite Hvalue in Hcast.
  unfold float_register_values, struct_pack_f.
  rewrite Hcast.
  assert (Hinf : IEEE.is_infinite x && negb (IEEE.is_infinite value) = false).
  { subst value; destruct x; try reflexivity. }
  rewrite Hinf, Hbits; cbn [res_bind].
  rewrite Float32.words_of_bytes by assumption.
  rewrite Hb; change (2 ^ 16) with 65536.
  do 2 f_equal; [| f_equal]; Z.to_euclidean_division_equations; lia.
Qed.

Lemma float_words_roundtrip_witness :
  is_uint16 16914 = true /\ is_uint16 26214 = true /\
  float_of_registers [16914; 26214] = Ok (S754_finite false 5150991859056640 (-47)) /\
  S754_finite false 5150991859056640 (-47) <> S754_nan /\
  float_register_values (S754_finite false 5150991859056640 (-47)) = Ok [16914; 26214].
Proof.
  split; [reflexivity |]; split; [reflexivity |]; split; [reflexivity |].
  split; [discriminate |].
  apply (float_words_roundtrip 16914 26214); [reflexivity | reflexivity | reflexivity | discriminate].
Defined.

(** ** Through the client and back *)

(** For a UInt32 [v] in [0, 2^32 - 1], [write_uint32] raises nothing and
    makes one call, a write of some words at the address; [read_uint32] at
    that address, from a device that answers with the words of that very
    call, returns [v]. *)
Theorem write_then_read_uint32 (Dev : Type) (client : ModbusTcpClient Dev)
    (w : World Dev) (address v : Z) :
  0 <= v <= 2 ^ 32 - 1 ->
  let w1 := snd (write_uint32 address v w) in
  exists written,
    (exists ok, fst (write_uint32 address v w) = Ok ok) /\
    calls w1 = calls w ++ [WriteRegisters address written] /\
    (fst (read_holding_registers (device w1) address 2) = mkResponse false written ->
     fst (read_uint32 address 2 w1) = Ok (Some v)).
Proof.
  intros Hv w1; subst w1.
  rewrite write_uint32_run; cbv zeta.
  destruct (write_registers (device w) address (uint32_register_values v))
    as [ack d1]; cbn [fst snd calls device].
  exists (uint32_register_values v).
  split; [eexists; reflexivity |]; split; [reflexivity |].
  intros Hecho.
  rewrite read_uint32_run; cbn [device].
  destruct (read_holding_registers d1 address 2) as [response d2].
  cbn [fst] in Hecho; subst response; cbn [isError response_registers fst].
  rewrite UInt32.decode_encode, Z.mod_small by lia.
  reflexivity.
Qed.

Lemma write_then_read_uint32_witness :
  let w := start bank0 [] in
  let w1 := snd (write_uint32 36 70000 w) in
  0 <= 70000 <= 2 ^ 32 - 1 /\
  exists written,
    (exists ok, fst (write_uint32 36 70000 w) = Ok ok) /\
    calls w1 = calls w ++ [WriteRegisters 36 written] /\
    (fst (read_holding_registers (device w1) 36 2) = mkResponse false written ->
     fst (read_uint32 36 2 w1) = Ok (Some 70000)).
Proof.
  intros w w1.
  split; [lia |].
  apply (write_then_read_uint32 Bank Bank_client w 36 70000); lia.
Defined.

(** On a bank the premise holds: what [read_uint32] gets back is what
    [write_uint32] sent. *)
Lemma bank_answers_with_written_words :
  let w1 := snd (write_uint32 36 70000 (start bank0 [])) in
  calls w1 = [WriteRegisters 36 [1; 4464]] /\
  fst (read_holding_registers (device w1) 36 2) = mkResponse false [1; 4464] /\
  fst (read_uint32 36 2 w1) = Ok (Some 70000).
Proof.
  repeat split.
Qed.

(** A finite binary32 value written by [write_float] is acknowledged or not
    by the client, never refused by the encoder, and is read by [read_float]
    from a device that answers the read with the words just written as the
    value written. *)
Theorem write_then_read_float (Dev : Type) (client : ModbusTcpClient Dev)
    (w : World Dev) (address : Z) (f : spec_float) :
  IEEE.valid32 f = true ->
  IEEE.is_finite f = true ->
  let value := IEEE.float_to_double f in
  let bits := IEEE.float_to_bits f in
  let words := [bits / 2 ^ 16; bits mod 2 ^ 16] in
  let w1 := snd (write_float address value w) in
  (exists ok, fst (write_float address value w) = Ok ok) /\
  calls w1 = calls w ++ [WriteRegisters address words] /\
  (fst (read_holding_registers (device w1) address 2) = mkResponse false words ->
   fst (read_float address 2 w1) = Ok (Some value)).
Proof.
  intros Hv Hfin value bits words w1.
  assert (Hnan : f <> S754_nan) by (intros ->; discriminate).
  destruct (Float32.bits_to_float_to_bits f Hv Hnan) as [Hback Hrange].
  pose proof (Float32.double_to_float_to_double f Hv) as Hcast.
  assert (Hwords : float_register_values value = Ok words).
  { unfold float_register_values, struct_pack_f; subst value.
    rewrite Hcast.
    replace (IEEE.is_infinite f) with false by (now destruct f).
    cbn [andb res_bind].
    now apply Float32.words_of_bytes. }
  assert (Hrun : exists (ok : bool) (d : Dev),
             write_float address value w
             = (Ok ok, mkWorld d (stdin w)
                         (output w ++ LogInfo (WritingToAddress address words)
                            :: (if ok then @nil Event else [LogError (ErrorWritingToAddress address)]))
                         (calls w ++ [WriteRegisters address words]))).
  { unfold write_float.
    rewrite bind_run; unfold lift at 1; rewrite Hwords.
    unfold bind, logging_info, logging_error, emit, client_write_registers, ret;
      cbn [device stdin output calls].
    destruct (write_registers (device w) address words) as [response d].
    destruct (isError response); cbn [device stdin output calls];
      [exists false, d | exists true, d]; rewrite <- ?app_assoc; reflexivity. }
  destruct Hrun as (ok & d & Hrun).
  subst w1; rewrite Hrun; cbn [fst snd calls device].
  split; [now exists ok |]; split; [reflexivity |].
  intros Hecho.
  rewrite read_float_run; cbn [device].
  destruct (read_holding_registers d address 2) as [response d'].
  cbn [fst] in Hecho; subst response; cbn [isError response_registers fst].
  subst words bits; rewrite Float32.bits_of_words by assumption.
  now rewrite Hback.
Qed.

Lemma write_then_read_float_witness :
  let f := S754_finite false 9594470 (-18) in
  let w := start bank0 [] in
  IEEE.valid32 f = true /\
  IEEE.is_finite f = true /\
  let value := IEEE.float_to_double f in
  let bits := IEEE.float_to_bits f in
  let words := [bits / 2 ^ 16; bits mod 2 ^ 16] in
  let w1 := snd (write_float 32 value w) in
  (exists ok, fst (write_float 32 value w) = Ok ok) /\
  calls w1 = calls w ++ [WriteRegisters 32 words] /\
  (fst (read_holding_registers (device w1) 32 2) = mkResponse false words ->
   fst (read_float 32 2 w1) = Ok (Some value)).
Proof.
  intros f w.
  split; [reflexivity |]; split; [reflexivity |].
  apply (write_then_read_float Bank Bank_client w 32 f); reflexivity.
Defined.

(** ** The batch reader, whatever fails *)

Section BatchAny.

Context {Dev : Type} {client : ModbusTcpClient Dev}.

Variable P : Dev -> Prop.

Hypothesis Hinv : forall d a, P d -> P (snd (read_holding_registers d a 2)).

Hypothesis Hwf :
  forall d a, P d -> well_formed_read (fst (read_holding_registers d a 2)).

Lemma read_all_loop_any (items : list (string * Register))
    (value : option (option PyVal)) (w : World Dev) :
  Forall (fun entry => readable_entry entry /\ reg_length (snd entry) = 2) items ->
  P (device w) ->
  exists w' new_output,
    read_all_loop items value w = (Ok tt, w') /\
    calls w' = calls w ++
      map (fun entry => ReadHoldingRegisters (reg_address (snd entry)) 2) items /\
    output w' = output w ++ new_output /\
    List.length (filter is_print new_output) = List.length items /\
    stdin w' = stdin w /\
    P (device w').
Proof.
  revert value w; induction items as [| [key reg] rest IH]; intros value w Hitems HP.
  - exists w, []; cbn [read_all_loop map filter List.length].
    rewrite !app_nil_r; repeat split; assumption.
  - apply Forall_cons_iff in Hitems as [[[Hacc Hty] Hlen] Hrest];
      cbn [snd] in Hacc, Hty, Hlen.
    assert (Hnext : exists value' events,
               read_all_loop ((key, reg) :: rest) value w
               = read_all_loop rest value'
                   (after_read w (snd (read_holding_registers (device w) (reg_address reg) 2))
                      (reg_address reg) 2 events) /\
               List.length (filter is_print events) = 1%nat).
    { pose proof (Hwf (device w) (reg_address reg) HP) as Hresp.
      destruct Hty as [Hty | Hty].
      - rewrite (read_all_loop_step key reg rest value
                   (fun regs => res_map PyFloat (float_of_registers regs)) w Hacc)
          by (left; split; [assumption | reflexivity]).
        rewrite Hlen.
        destruct (read_holding_registers (device w) (reg_address reg) 2)
          as [response d]; cbn [fst snd] in *.
        destruct Hresp as [Herr | [Herr (a0 & a1 & Hregs & Ha0 & Ha1)]]; rewrite Herr.
        + eexists _, _; split; reflexivity.
        + rewrite Hregs, (float_of_registers_words a0 a1 Ha0 Ha1); cbn [res_map].
          eexists _, _; split; reflexivity.
      - rewrite (read_all_loop_step key reg rest value
                   (fun regs => res_map PyInt (uint32_of_registers regs)) w Hacc)
          by (right; split; [assumption | reflexivity]).
        rewrite Hlen.
        destruct (read_holding_registers (device w) (reg_address reg) 2)
          as [response d]; cbn [fst snd] in *.
        destruct Hresp as [Herr | [Herr (a0 & a1 & Hregs & Ha0 & Ha1)]]; rewrite Herr.
        + eexists _, _; split; reflexivity.
        + rewrite Hregs; cbn [uint32_of_registers getitem nth_error res_bind res_map].
          eexists _, _; split; reflexivity. }
    destruct Hnext as (value' & events & Hnext & Hcount).
    rewrite Hnext.
    destruct (IH value'
                (after_read w (snd (read_holding_registers (device w) (reg_address reg) 2))
                   (reg_address reg) 2 events) Hrest)
      as (w' & new & Hrun & Hcalls & Hout & Hprints & Hin & HP');
      [cbn [after_read device]; now apply Hinv |].
    exists w', (events ++ new).
    cbn [after_read calls output stdin] in Hcalls, Hout, Hin.
    split; [assumption |].
    split; [rewrite Hcalls, <- app_assoc; reflexivity |].
    split; [rewrite Hout, <- app_assoc; reflexivity |].
    split; [rewrite filter_app, length_app, Hcount, Hprints; reflexivity |].
    split; assumption.
Qed.

End BatchAny.

(** C3, as the claim has it, fails: when the answer for "sptwh" is no error
    but cannot be decoded (one word where two are indexed), the batch ends
    there with [IndexError]; no failure is reported for "sptwh", and "spp"
    and "ni" are not read. *)
Lemma batch_stops_at_undecodable_register :
  let run := read_all_values (start scripted_short_sptwh []) in
  fst run = Raise IndexError /\
  calls (snd run)
  = [ ReadHoldingRegisters 30 2; ReadHoldingRegisters 32 2;
      ReadHoldingRegisters 34 2 ] /\
  output (snd run)
  = [ Print (RegisterValue "State" 30 (PyInt 7) "");
      LogInfo (RegisterValue "State" 30 (PyInt 7) "");
      Print (RegisterValue "Target Water Temperature" 32
               (PyFloat (S754_finite false 7881299347898368 (-199))) "°C");
      LogInfo (RegisterValue "Target Water Temperature" 32
                 (PyFloat (S754_finite false 7881299347898368 (-199))) "°C") ].
Proof.
  vm_compute; repeat split.
Qed.

(** C3, as the code has it.  Error responses never end the batch: whichever
    reads the client answers with an error, as long as every other answer
    carries two 16-bit words, [read_all_values] raises nothing, reads all
    five registers in the order of the catalog and prints one line for each.
    When the read of "sptwh" (address 34) is the one answered with an error,
    the lines are a value for "state" and "sptw", one failure for "sptwh",
    and a value for "spp" and "ni", in that order.  ([P] is what stays true
    of the device while it is read.) *)
Theorem batch_read_past_error_responses (Dev : Type) (client : ModbusTcpClient Dev)
    (P : Dev -> Prop) (w : World Dev) :
  P (device w) ->
  (forall d a, P d -> P (snd (read_holding_registers d a 2))) ->
  (forall d a, P d -> well_formed_read (fst (read_holding_registers d a 2))) ->
  (exists w' new_output,
      read_all_values w = (Ok tt, w') /\
      calls w' = calls w ++
        [ ReadHoldingRegisters 30 2; ReadHoldingRegisters 32 2;
          ReadHoldingRegisters 34 2; ReadHoldingRegisters 36 2;
          ReadHoldingRegisters 38 2 ] /\
      output w' = output w ++ new_output /\
      List.length (filter is_print new_output) = 5%nat) /\
  ((forall d a, P d ->
                (isError (fst (read_holding_registers d a 2)) = true <-> a = 34)) ->
   exists (state spp ni : Z) (sptw : spec_float) (w' : World Dev),
     read_all_values w = (Ok tt, w') /\
     calls w' = calls w ++
       [ ReadHoldingRegisters 30 2; ReadHoldingRegisters 32 2;
         ReadHoldingRegisters 34 2; ReadHoldingRegisters 36 2;
         ReadHoldingRegisters 38 2 ] /\
     output w' = output w ++
       [ Print (RegisterValue "State" 30 (PyInt state) "");
         LogInfo (RegisterValue "State" 30 (PyInt state) "");
         Print (RegisterValue "Target Water Temperature" 32 (PyFloat sptw) "°C");
         LogInfo (RegisterValue "Target Water Temperature" 32 (PyFloat sptw) "°C");
         LogError (ErrorReadingAddress 34);
         Print (FailedToRead "Hysteresis Water Temperature" 34);
         LogError (FailedToRead "Hysteresis Water Temperature" 34);
         Print (RegisterValue "Target Heating Power" 36 (PyInt spp) "W");
         LogInfo (RegisterValue "Target Heating Power" 36 (PyInt spp) "W");
         Print (RegisterValue "Soldering Interval" 38 (PyInt ni) "ms");
         LogInfo (RegisterValue "Soldering Interval" 38 (PyInt ni) "ms") ]).
Proof.
  intros HP Hinv Hwf; split.
  - destruct (read_all_loop_any P Hinv Hwf registers None w)
      as (w' & new & Hrun & Hcalls & Hout & Hprints & _ & _); [| assumption |].
    + unfold registers, readable_entry.
      repeat (apply Forall_cons;
              [cbn; split; [split; [reflexivity | tauto] | reflexivity] |]).
      apply Forall_nil.
    + exists w', new; repeat split; assumption.
  - intros Honly.
    apply (batch_read_sptwh_scenario Dev client P w HP Hinv).
    + intros d HPd a Ha.
      destruct (Hwf d a HPd) as [Herr | Hhealthy]; [| assumption].
      apply (Honly d a HPd) in Herr; contradiction.
    + intros d HPd; now apply (Honly d 34 HPd).
Qed.

Lemma batch_read_past_error_responses_witness :
  let w := start bank_sptwh_down [] in
  (exists w' new_output,
      read_all_values w = (Ok tt, w') /\
      calls w' = calls w ++
        [ ReadHoldingRegisters 30 2; ReadHoldingRegisters 32 2;
          ReadHoldingRegisters 34 2; ReadHoldingRegisters 36 2;
          ReadHoldingRegisters 38 2 ] /\
      output w' = output w ++ new_output /\
      List.length (filter is_print new_output) = 5%nat) /\
  (exists (state spp ni : Z) (sptw : spec_float) (w' : World Bank),
     read_all_values w = (Ok tt, w') /\
     calls w' = calls w ++
       [ ReadHoldingRegisters 30 2; ReadHoldingRegisters 32 2;
         ReadHoldingRegisters 34 2; ReadHoldingRegisters 36 2;
         ReadHoldingRegisters 38 2 ] /\
     output w' = output w ++
       [ Print (RegisterValue "State" 30 (PyInt state) "");
         LogInfo (RegisterValue "State" 30 (PyInt state) "");
         Print (RegisterValue "Target Water Temperature" 32 (PyFloat sptw) "°C");
         LogInfo (RegisterValue "Target Water Temperature" 32 (PyFloat sptw) "°C");
         LogError (ErrorReadingAddress 34);
         Print (FailedToRead "Hysteresis Water Temperature" 34);
         LogError (FailedToRead "Hysteresis Water Temperature" 34);
         Print (RegisterValue "Target Heating Power" 36 (PyInt spp) "W");
         LogInfo (RegisterValue "Target Heating Power" 36 (PyInt spp) "W");
         Print (RegisterValue "Soldering Interval" 38 (PyInt ni) "ms");
         LogInfo (RegisterValue "Soldering Interval" 38 (PyInt ni) "ms") ]).
Proof.
  intros w.
  destruct (batch_read_past_error_responses Bank Bank_client sptwh_down w)
    as [Hall Hsptwh].
  - split; [reflexivity | intros a; reflexivity].
  - intros d a [Hf Hm]; simpl; rewrite Hf; simpl.
    destruct (a =? 34); simpl; split; assumption.
  - intros d a [Hf Hm]; unfold well_formed_read, healthy_read; simpl; rewrite Hf; simpl.
    destruct (a =? 34); simpl; [now left | right].
    split; [reflexivity |].
    exists (memory d a), (memory d (a + 1)); repeat split; apply Hm.
  - split; [exact Hall | apply Hsptwh].
    intros d a [Hf Hm]; simpl; rewrite Hf; simpl.
    destruct (Z.eqb_spec a 34) as [Heq | Hne]; simpl; split; congruence.
Defined.

(** Whichever reads the client answers with an error, as long as every
    other answer carries two 16-bit words, [read_all_values] raises nothing,
    reads the five registers in the order of the catalog, two words each,
    prints one line for each of them and takes no input.  ([P] is what stays
    true of the device while it is read.) *)
Theorem read_all_values_any_failures (Dev : Type) (client : ModbusTcpClient Dev)
    (P : Dev -> Prop) (w : World Dev) :
  P (device w) ->
  (forall d a, P d -> P (snd (read_holding_registers d a 2))) ->
  (forall d a, P d -> well_formed_read (fst (read_holding_registers d a 2))) ->
  exists w' new_output,
    read_all_values w = (Ok tt, w') /\
    calls w' = calls w ++
      [ ReadHoldingRegisters 30 2; ReadHoldingRegisters 32 2;
        ReadHoldingRegisters 34 2; ReadHoldingRegisters 36 2;
        ReadHoldingRegisters 38 2 ] /\
    output w' = output w ++ new_output /\
    List.length (filter is_print new_output) = 5%nat /\
    stdin w' = stdin w.
Proof.
  intros HP Hinv Hwf.
  destruct (read_all_loop_any P Hinv Hwf registers None w)
    as (w' & new & Hrun & Hcalls & Hout & Hprints & Hin & _); [| assumption |].
  - unfold registers, readable_entry.
    repeat (apply Forall_cons; [cbn; split; [split; [reflexivity | tauto] | reflexivity] |]).
    apply Forall_nil.
  - exists w', new; repeat split; assumption.
Qed.

Lemma read_all_values_any_failures_witness :
  exists w' new_output,
    read_all_values (start bank_two_down ["4"]) = (Ok tt, w') /\
    calls w' = calls (start bank_two_down ["4"]) ++
      [ ReadHoldingRegisters 30 2; ReadHoldingRegisters 32 2;
        ReadHoldingRegisters 34 2; ReadHoldingRegisters 36 2;
        ReadHoldingRegisters 38 2 ] /\
    output w' = output (start bank_two_down ["4"]) ++ new_output /\
    List.length (filter is_print new_output) = 5%nat /\
    stdin w' = stdin (start bank_two_down ["4"]).
Proof.
  apply (read_all_values_any_failures Bank Bank_client two_down).
  - split; [reflexivity | intros a; reflexivity].
  - intros d a [Hf Hm]; simpl; rewrite Hf; simpl.
    destruct ((a =? 30) || ((a =? 34) || false))%bool; simpl; split; assumption.
  - intros d a [Hf Hm]; unfold well_formed_read, healthy_read; simpl; rewrite Hf; simpl.
    destruct ((a =? 30) || ((a =? 34) || false))%bool; simpl; [now left | right].
    split; [reflexivity |].
    exists (memory d a), (memory d (a + 1)); repeat split; apply Hm.
Defined.

(** A response that is no error but carries fewer than two words stops the
    batch: the loop of [read_all_values] raises [IndexError] at that
    register, prints and logs nothing for it, and the registers after it are
    not read. *)
Theorem batch_stops_on_short_response (Dev : Type) (client : ModbusTcpClient Dev)
    (key : string) (reg : Register) (rest : list (string * Register))
    (value : option (option PyVal)) (w : World Dev) :
  readable_entry (key, reg) ->
  let response :=
    fst (read_holding_registers (device w) (reg_address reg) (reg_length reg)) in
  isError response = false ->
  (List.length (response_registers response) < 2)%nat ->
  exists w',
    read_all_loop ((key, reg) :: rest) value w = (Raise IndexError, w') /\
    calls w' = calls w ++ [ReadHoldingRegisters (reg_address reg) (reg_length reg)] /\
    output w' = output w.
Proof.
  intros [Hacc Hty] response Herr Hshort; subst response; cbn [snd] in Hacc, Hty.
  destruct Hty as [Hty | Hty].
  - rewrite (read_all_loop_step key reg rest value
               (fun regs => res_map PyFloat (float_of_registers regs)) w Hacc)
      by (left; split; [assumption | reflexivity]).
    destruct (read_holding_registers (device w) (reg_address reg) (reg_length reg))
      as [response d]; cbn [fst] in *.
    rewrite Herr.
    destruct (response_registers response) as [| r0 [| r1 more]];
      cbn [List.length] in Hshort; try lia;
      cbn [float_of_registers getitem nth_error res_bind res_map];
      eexists; split; try reflexivity;
      cbn [after_read calls output]; now rewrite app_nil_r.
  - rewrite (read_all_loop_step key reg rest value
               (fun regs => res_map PyInt (uint32_of_registers regs)) w Hacc)
      by (right; split; [assumption | reflexivity]).
    destruct (read_holding_registers (device w) (reg_address reg) (reg_length reg))
      as [response d]; cbn [fst] in *.
    rewrite Herr.
    destruct (response_registers response) as [| r0 [| r1 more]];
      cbn [List.length] in Hshort; try lia;
      cbn [uint32_of_registers getitem nth_error res_bind res_map];
      eexists; split; try reflexivity;
      cbn [after_read calls output]; now rewrite app_nil_r.
Qed.

Lemma batch_stops_on_short_response_witness :
  let reg := mkRegister 30 "uint32" 1 "" "State" "rw" in
  let w := start bank0 [] in
  readable_entry ("state", reg) /\
  let response :=
    fst (read_holding_registers (device w) (reg_address reg) (reg_length reg)) in
  isError response = false /\
  (List.length (response_registers response) < 2)%nat /\
  exists w',
    read_all_loop (("state", reg) :: registers) None w = (Raise IndexError, w') /\
    calls w' = calls w ++ [ReadHoldingRegisters (reg_address reg) (reg_length reg)] /\
    output w' = output w.
Proof.
  intros reg w.
  split; [split; [reflexivity | now right] |].
  split; [reflexivity |]; split; [vm_compute; lia |].
  apply (batch_stops_on_short_response Bank Bank_client "state" reg registers None w);
    [split; [reflexivity | now right] | reflexivity | vm_compute; lia].
Defined.

(** ** Values the encoder refuses *)

(** A finite double too large for a binary32 makes [write_float] raise
    [OverflowError] before anything is logged or sent to the client. *)
Theorem write_float_overflow (Dev : Type) (client : ModbusTcpClient Dev)
    (w : World Dev) (address : Z) (value : spec_float) :
  IEEE.is_infinite value = false ->
  IEEE.is_infinite (IEEE.double_to_float value) = true ->
  write_float address value w = (Raise OverflowError, w).
Proof.
  intros Hfin Hover.
  unfold write_float; rewrite bind_run.
  unfold lift, float_register_values, struct_pack_f.
  now rewrite Hover, Hfin.
Qed.

Lemma write_float_overflow_witness :
  let value := S754_finite false 6617444900424221 77 in
  py_float "1e39" = Ok value /\
  IEEE.is_infinite value = false /\
  IEEE.is_infinite (IEEE.double_to_float value) = true /\
  write_float 32 value (start bank0 []) = (Raise OverflowError, start bank0 []).
Proof.
  intros value.
  split; [reflexivity |]; split; [reflexivity |]; split; [reflexivity |].
  apply (write_float_overflow Bank Bank_client (start bank0 []) 32 value); reflexivity.
Defined.

(** ** The editor and keys it does not know *)

Section EditorKeys.

Context {Dev : Type} {client : ModbusTcpClient Dev}.

Lemma change_loop_unknown (fuel : nat) (locals : EditLocals) (w : World Dev)
    (reg_key : string) (rest : list string) :
  stdin w = reg_key :: rest ->
  String.eqb reg_key "q" = false ->
  dict_get registers reg_key = None ->
  change_loop (S fuel) locals w
  = change_loop fuel locals
      (mkWorld (device w) rest
         (output w ++ [Prompt EnterRegisterKey; Print InvalidKey]) (calls w)).
Proof.
  intros H Hq Hreg; cbn [change_loop].
  rewrite bind_run, (input_run _ _ _ _ H), Hq, Hreg.
  unfold bind, print, emit; cbn [device stdin output calls].
  now rewrite <- app_assoc.
Qed.

End EditorKeys.

(** A key that is not in the register map is refused with "Invalid key" and
    nothing is asked of the client; the editor then goes on to the next
    key. *)
Theorem editor_refuses_unknown_key (Dev : Type) (client : ModbusTcpClient Dev)
    (d : Dev) (reg_key : string) (rest : list string) :
  dict_get registers reg_key = None ->
  String.eqb reg_key "q" = false ->
  change_value (start d (reg_key :: "q" :: rest))
  = (Ok tt,
     mkWorld d rest
       (editor_header ++
          [Prompt EnterRegisterKey; Print InvalidKey; Prompt EnterRegisterKey])
       []).
Proof.
  intros Hreg Hq.
  rewrite change_value_run; cbn [List.length stdin start device output calls].
  rewrite (change_loop_unknown _ _ _ reg_key ("q" :: rest)) by (reflexivity || assumption).
  rewrite (change_loop_quit _ _ _ rest) by reflexivity.
  cbn [device stdin output calls app].
  now rewrite <- app_assoc.
Qed.

Lemma editor_refuses_unknown_key_witness :
  dict_get registers "bogus" = None /\
  String.eqb "bogus" "q" = false /\
  change_value (start bank0 ["bogus"; "q"])
  = (Ok tt,
     mkWorld bank0 []
       (editor_header ++
          [Prompt EnterRegisterKey; Print InvalidKey; Prompt EnterRegisterKey])
       []).
Proof.
  split; [reflexivity |]; split; [reflexivity |].
  apply (editor_refuses_unknown_key Bank Bank_client bank0 "bogus" []); reflexivity.
Defined.

(** ** The heating controller and input that is no number *)

Lemma py_int_cases (line : string) :
  (exists z, py_int line = Ok z) \/ py_int line = Raise ValueError.
Proof.
  unfold py_int; destruct (Literal.int_literal _); [left; eauto | now right].
Qed.

(** When either of the two plain lines typed is not an integer,
    [control_heating] writes nothing: it makes no call on the client, prints
    "Invalid input" and returns normally. *)
Theorem heating_needs_two_numbers (Dev : Type) (client : ModbusTcpClient Dev)
    (w : World Dev) (line1 line2 : string) (rest : list string) :
  stdin w = line1 :: line2 :: rest ->
  plain_line line1 = true ->
  plain_line line2 = true ->
  py_int line1 = Raise ValueError \/ py_int line2 = Raise ValueError ->
  exists w',
    control_heating w = (Ok tt, w') /\
    calls w' = calls w /\
    device w' = device w /\
    In (Print InvalidInput) (output w').
Proof.
  intros Hin _ _ Hbad.
  unfold control_heating, try_except_ValueError.
  rewrite bind_run, (input_run _ _ _ _ Hin), bind_run.
  unfold lift at 1.
  destruct (py_int_cases line1) as [[p Hp] | Hp]; rewrite Hp.
  - destruct Hbad as [Hbad | Hbad]; [congruence |].
    rewrite bind_run, (input_run _ _ line2 rest) by reflexivity.
    rewrite bind_run; unfold lift at 1; rewrite Hbad.
    unfold print, emit; cbn [device stdin output calls].
    eexists; repeat split.
    apply in_or_app; right; now left.
  - unfold print, emit; cbn [device stdin output calls].
    eexists; repeat split.
    apply in_or_app; right; now left.
Qed.

Lemma heating_needs_two_numbers_witness :
  let w := start bank0 ["500"; "on"] in
  stdin w = ["500"; "on"] /\
  plain_line "500" = true /\
  plain_line "on" = true /\
  (py_int "500" = Raise ValueError \/ py_int "on" = Raise ValueError) /\
  exists w',
    control_heating w = (Ok tt, w') /\
    calls w' = calls w /\
    device w' = device w /\
    In (Print InvalidInput) (output w').
Proof.
  intros w.
  split; [reflexivity |]; split; [reflexivity |]; split; [reflexivity |].
  split; [right; reflexivity |].
  apply (heating_needs_two_numbers Bank Bank_client w "500" "on" []);
    [reflexivity | reflexivity | reflexivity | right; reflexivity].
Defined.

(** ** What the program asks of the client, and what it never asks *)

Section Only.

Context {Dev : Type} {client : ModbusTcpClient Dev}.

Variable Q : Call -> Prop.

Local Abbreviation only := (only (Dev := Dev) Q).

Lemma only_same {A} (c : Prog Dev A) :
  (forall w, calls (snd (c w)) = calls w) -> only c.
Proof.
  intros H w; exists []; rewrite app_nil_r; split; [apply H | apply Forall_nil].
Qed.

Lemma only_ret {A} (a : A) : only (ret a).
Proof. now apply only_same. Qed.

Lemma only_raise {A} (e : PyExc) : only (@raise Dev A e).
Proof. now apply only_same. Qed.

Lemma only_lift {A} (r : Res A) : only (lift r).
Proof. now apply only_same. Qed.

Lemma only_emit (e : Event) : only (emit e).
Proof. now apply only_same. Qed.

Lemma only_input (prompt : Msg) : only (input prompt).
Proof.
  apply only_same; intros w; unfold input; now destruct (stdin w).
Qed.

Lemma only_read (address length : Z) :
  Q (ReadHoldingRegisters address length) ->
  only (client_read_holding_registers address length).
Proof.
  intros H w; unfold client_read_holding_registers.
  destruct (read_holding_registers (device w) address length).
  eexists; split; [reflexivity | now repeat constructor].
Qed.

Lemma only_write (address : Z) (values : list Z) :
  Q (WriteRegisters address values) ->
  only (client_write_registers address values).
Proof.
  intros H w; unfold client_write_registers.
  destruct (write_registers (device w) address values).
  eexists; split; [reflexivity | now repeat constructor].
Qed.

Lemma only_bind {A B} (c : Prog Dev A) (k : A -> Prog Dev B) :
  only c -> (forall a, only (k a)) -> only (bind c k).
Proof.
  intros Hc Hk w; unfold bind.
  destruct (Hc w) as (new1 & E1 & F1).
  destruct (c w) as [[a | e |] w1]; cbn [fst snd] in *; try (now exists new1).
  destruct (Hk a w1) as (new2 & E2 & F2).
  exists (new1 ++ new2); split.
  - now rewrite E2, E1, app_assoc.
  - apply Forall_app; now split.
Qed.

(** Only the value a pure step really gives has to be followed up. *)
Lemma only_bind_lift {A B} (r : Res A) (k : A -> Prog Dev B) :
  (forall a, r = Ok a -> only (k a)) -> only (bind (lift r) k).
Proof.
  intros Hk w; unfold bind, lift.
  destruct r as [a | e |]; [now apply Hk | |];
    exists []; rewrite app_nil_r; split; (reflexivity || apply Forall_nil).
Qed.

Lemma only_try (body handler : Prog Dev unit) :
  only body -> only handler -> only (try_except_ValueError body handler).
Proof.
  intros Hb Hh w; unfold try_except_ValueError.
  destruct (Hb w) as (new1 & E1 & F1).
  destruct (body w) as [[a | e |] w1]; cbn [fst snd] in *; try (now exists new1).
  destruct e; cbn [snd]; try (now exists new1).
  destruct (Hh w1) as (new2 & E2 & F2).
  exists (new1 ++ new2); split.
  - now rewrite E2, E1, app_assoc.
  - apply Forall_app; now split.
Qed.

End Only.

Lemma only_mono {Dev A} (Q Q' : Call -> Prop) (c : Prog Dev A) :
  (forall x, Q x -> Q' x) -> only Q c -> only Q' c.
Proof.
  intros H Hc w; destruct (Hc w) as (new & E & F).
  exists new; split; [assumption |].
  eapply Forall_impl; eauto.
Qed.

Create HintDb only.

#[local] Hint Resolve only_ret only_raise only_lift only_emit only_input : only.

Ltac only_step :=
  match goal with
  | |- only _ (bind (lift _) _) => apply only_bind_lift; intros ? ?
  | |- only _ (bind _ _) => apply only_bind; [| intros ?]
  | |- only _ (try_except_ValueError _ _) => apply only_try
  | |- only _ (print _) => apply only_emit
  | |- only _ (logging_info _) => apply only_emit
  | |- only _ (logging_error _) => apply only_emit
  | |- only _ (if ?b then _ else _) => destruct b
  | |- only _ (match ?x with _ => _ end) => destruct x
  | |- _ => solve [auto with only]
  end.

Lemma uint32_words_uint16 (address v : Z) :
  word_write address (WriteRegisters address (uint32_register_values v)).
Proof.
  unfold uint32_register_values.
  rewrite UInt32.high_word, UInt32.low_word.
  pose proof (Z.mod_pos_bound (v / 2 ^ 16) (2 ^ 16) eq_refl).
  pose proof (Z.mod_pos_bound v (2 ^ 16) eq_refl).
  change (2 ^ 16) with 65536 in *.
  eexists _, _; split; [reflexivity |].
  split; apply is_uint16_range; lia.
Qed.

Lemma float_words_uint16 (address : Z) (value : spec_float) (words : list Z) :
  float_register_values value = Ok words ->
  word_write address (WriteRegisters address words).
Proof.
  unfold float_register_values, struct_pack_f.
  destruct (_ && _); [discriminate |].
  cbn [res_bind struct_unpack_HH]; intros H; injection H as <-.
  set (b := IEEE.float_to_bits (IEEE.double_to_float value)).
  pose proof (Z.mod_pos_bound (b / 2 ^ 24) 256 eq_refl).
  pose proof (Z.mod_pos_bound (b / 2 ^ 16) 256 eq_refl).
  pose proof (Z.mod_pos_bound (b / 2 ^ 8) 256 eq_refl).
  pose proof (Z.mod_pos_bound b 256 eq_refl).
  eexists _, _; split; [reflexivity |].
  split; apply is_uint16_range; lia.
Qed.

Lemma dict_get_in {V} (d : list (string * V)) (key : string) (v : V) :
  dict_get d key = Some v -> In v (map snd d).
Proof.
  induction d as [| [k x] rest IH]; cbn [dict_get map snd]; [discriminate |].
  destruct (String.eqb key k); intros H.
  - injection H as ->; now left.
  - right; now apply IH.
Qed.

Lemma catalog_address_of (key : string) (reg : Register) :
  dict_get registers key = Some reg -> In (reg_address reg) catalog_addresses.
Proof.
  intros H; apply dict_get_in in H.
  unfold catalog_addresses.
  rewrite <- (map_map snd reg_address).
  now apply in_map.
Qed.

Section ProgramCalls.

Context {Dev : Type} {client : ModbusTcpClient Dev}.

Local Abbreviation only := (only (Dev := Dev)).

Lemma only_read_float (Q : Call -> Prop) (address length : Z) :
  Q (ReadHoldingRegisters address length) -> only Q (read_float address length).
Proof.
  intros H; pose proof (only_read Q address length H).
  unfold read_float; repeat only_step; auto.
Qed.

Lemma only_read_uint32 (Q : Call -> Prop) (address length : Z) :
  Q (ReadHoldingRegisters address length) -> only Q (read_uint32 address length).
Proof.
  intros H; pose proof (only_read Q address length H).
  unfold read_uint32; repeat only_step; auto.
Qed.

Lemma only_write_uint32 (address value : Z) :
  only (word_write address) (write_uint32 address value).
Proof.
  pose proof (only_write (word_write address) address _
                (uint32_words_uint16 address value)).
  unfold write_uint32; repeat only_step; auto.
Qed.

Lemma only_write_float (address : Z) (value : spec_float) :
  only (word_write address) (write_float address value).
Proof.
  unfold write_float.
  apply only_bind_lift; intros words Hwords.
  pose proof (only_write (word_write address) address words
                (float_words_uint16 address value words Hwords)).
  repeat only_step; auto.
Qed.

Lemma only_read_all_loop (items : list (string * Register))
    (value : option (option PyVal)) :
  Forall (fun entry => In (reg_address (snd entry)) catalog_addresses /\
                       reg_length (snd entry) = 2) items ->
  only catalog_read (read_all_loop items value).
Proof.
  revert value; induction items as [| [key reg] rest IH]; intros value Hitems;
    cbn [read_all_loop].
  - apply only_ret.
  - apply Forall_cons_iff in Hitems as [[Haddr Hlen] Hrest]; cbn [snd] in *.
    assert (Hq : catalog_read (ReadHoldingRegisters (reg_address reg) (reg_length reg)))
      by (split; assumption).
    pose proof (only_read_float catalog_read _ _ Hq).
    pose proof (only_read_uint32 catalog_read _ _ Hq).
    repeat only_step; auto.
Qed.

Lemma only_read_all_values : only catalog_read read_all_values.
Proof.
  apply only_read_all_loop.
  unfold registers, catalog_addresses.
  repeat (apply Forall_cons; [cbn; split; [tauto | reflexivity] |]).
  apply Forall_nil.
Qed.

Lemma only_print_writable (Q : Call -> Prop) (items : list (string * Register)) :
  only Q (print_writable (Dev := Dev) items).
Proof.
  induction items as [| [key reg] rest IH]; cbn [print_writable].
  - apply only_ret.
  - repeat only_step; auto.
Qed.

Lemma only_change_one (reg_key : string) (reg : Register) (locals : EditLocals) :
  In (reg_address reg) catalog_addresses ->
  only catalog_write (change_one reg_key reg locals).
Proof.
  intros Haddr.
  assert (Hw : forall c, word_write (reg_address reg) c -> catalog_write c)
    by (intros c Hc; now exists (reg_address reg)).
  pose proof (fun v => only_mono _ _ _ Hw (only_write_uint32 (reg_address reg) v)).
  pose proof (fun v => only_mono _ _ _ Hw (only_write_float (reg_address reg) v)).
  unfold change_one; repeat only_step; auto.
Qed.

Lemma only_change_loop (fuel : nat) (locals : EditLocals) :
  only catalog_write (change_loop fuel locals).
Proof.
  revert locals; induction fuel as [| fuel IH]; intros locals; cbn [change_loop].
  - now apply only_same.
  - apply only_bind; [apply only_input | intros reg_key].
    destruct (String.eqb reg_key "q"); [apply only_ret |].
    destruct (dict_get registers reg_key) as [reg |] eqn:Hreg.
    + destruct (negb (String.eqb (reg_access reg) "rw")).
      * apply only_bind; [apply only_emit | intros _; apply IH].
      * apply only_bind; [| intros locals'; apply IH].
        apply only_change_one, (catalog_address_of reg_key reg Hreg).
    + apply only_bind; [apply only_emit | intros _; apply IH].
Qed.

Lemma only_change_value : only catalog_write change_value.
Proof.
  unfold change_value.
  apply only_bind; [apply only_emit | intros _].
  apply only_bind; [apply only_print_writable | intros _].
  intros w; apply only_change_loop.
Qed.

Lemma only_control_heating : only catalog_write control_heating.
Proof.
  assert (Hw : forall reg key, subscript registers key = Ok reg ->
                               forall c, word_write (reg_address reg) c -> catalog_write c).
  { intros reg key Hreg c Hc; exists (reg_address reg); split; [| assumption].
    apply (catalog_address_of key reg).
    unfold subscript in Hreg; destruct (dict_get registers key); congruence. }
  unfold control_heating.
  apply only_try; [| apply only_emit].
  apply only_bind; [apply only_input | intros line1].
  apply only_bind; [apply only_lift | intros target_power].
  apply only_bind; [apply only_input | intros line2].
  apply only_bind; [apply only_lift | intros system_state].
  apply only_bind_lift; intros spp Hspp.
  apply only_bind;
    [exact (only_mono _ _ _ (Hw spp "spp" Hspp) (only_write_uint32 _ _)) | intros power_ok].
  apply only_bind.
  - destruct power_ok; [| apply only_ret].
    apply only_bind_lift; intros state Hstate.
    exact (only_mono _ _ _ (Hw state "state" Hstate) (only_write_uint32 _ _)).
  - intros both_ok; repeat only_step.
Qed.

Lemma only_print_menu (Q : Call -> Prop) (items : list (string * string)) :
  only Q (print_menu (Dev := Dev) items).
Proof.
  induction items as [| [key option] rest IH]; cbn [print_menu].
  - apply only_ret.
  - repeat only_step; auto.
Qed.

Lemma only_main_loop (fuel : nat) : only catalog_call (main_loop fuel).
Proof.
  pose proof (only_mono catalog_read catalog_call read_all_values
                (fun c H => or_introl H) only_read_all_values).
  pose proof (only_mono catalog_write catalog_call change_value
                (fun c H => or_intror H) only_change_value).
  pose proof (only_mono catalog_write catalog_call control_heating
                (fun c H => or_intror H) only_control_heating).
  induction fuel as [| fuel IH]; cbn [main_loop].
  - now apply only_same.
  - apply only_bind; [apply only_emit | intros _].
    apply only_bind; [apply only_print_menu | intros _].
    apply only_bind; [apply only_input | intros choice].
    repeat only_step; auto.
Qed.

End ProgramCalls.

(** Whatever the device answers, [read_all_values] asks nothing of it but
    reads of two registers at addresses of the register map: monitoring
    never writes. *)
Theorem monitor_only_reads (Dev : Type) (client : ModbusTcpClient Dev)
    (w : World Dev) :
  exists new,
    calls (snd (read_all_values w)) = calls w ++ new /\
    Forall catalog_read new /\
    forall address values, ~ In (WriteRegisters address values) new.
Proof.
  destruct (only_read_all_values w) as (new & E & F).
  exists new; split; [assumption |]; split; [assumption |].
  intros address values Hin.
  rewrite Forall_forall in F; exact (F _ Hin).
Qed.

(** Whatever is typed and whatever the device answers, [change_value] asks
    nothing of the client but writes of two 16-bit words at addresses of the
    register map: the editor never reads, and never writes anywhere else. *)
Theorem editor_only_writes_catalog (Dev : Type) (client : ModbusTcpClient Dev)
    (w : World Dev) :
  exists new,
    calls (snd (change_value w)) = calls w ++ new /\
    Forall catalog_write new /\
    forall address length, ~ In (ReadHoldingRegisters address length) new.
Proof.
  destruct (only_change_value w) as (new & E & F).
  exists new; split; [assumption |]; split; [assumption |].
  intros address length Hin.
  rewrite Forall_forall in F.
  destruct (F _ Hin) as (a & _ & w0 & w1 & Heq & _); discriminate.
Qed.

Section MainCalls.

Context {Dev : Type} {client : ModbusTcpClient Dev}.

(** The calls of a whole run: the connection, then reads and writes within
    the register map, then the close, which is made when the run ends
    normally and only then. *)
Lemma main_calls_shape (w : World Dev) :
  exists middle,
    Forall catalog_call middle /\
    calls (snd (main w))
    = calls w ++ Connect :: middle ++
        match fst (main w) with
        | Ok _ => [Close]
        | _ => []
        end.
Proof.
  remember (main w) as r eqn:Hr.
  unfold main in Hr.
  rewrite bind_run in Hr; unfold client_connect at 1 in Hr.
  rewrite bind_run in Hr; unfold print at 1, emit at 1 in Hr;
    cbn [device stdin output calls] in Hr.
  set (w1 := mkWorld (device w) (stdin w) (output w ++ [Print InitialValues])
               (calls w ++ [Connect])) in Hr.
  rewrite bind_run in Hr.
  destruct (only_read_all_values w1) as (new1 & E1 & F1).
  assert (F1' : Forall catalog_call new1)
    by (eapply Forall_impl; [| exact F1]; intros c Hc; now left).
  destruct (read_all_values w1) as [[[] | e |] w2]; cbn [fst snd calls w1] in *.
  - rewrite bind_run in Hr.
    destruct (only_main_loop (S (List.length (stdin w2))) w2) as (new2 & E2 & F2).
    destruct (main_loop (S (List.length (stdin w2))) w2) as [[[] | e |] w3];
      cbn [fst snd] in *; subst r; unfold client_close; cbn [fst snd calls];
      (exists (new1 ++ new2); split; [apply Forall_app; now split |]);
      rewrite E2, E1, <- !app_assoc, ?app_nil_r; reflexivity.
  - subst r; cbn [fst snd].
    exists new1; split; [assumption |].
    rewrite E1, <- !app_assoc, app_nil_r; reflexivity.
  - subst r; cbn [fst snd].
    exists new1; split; [assumption |].
    rewrite E1, <- !app_assoc, app_nil_r; reflexivity.
Qed.

Lemma catalog_call_not_close (c : Call) : catalog_call c -> c <> Close.
Proof.
  intros [H | (a & _ & w0 & w1 & H & _)] ->; [exact H | discriminate].
Qed.

End MainCalls.

(** Every run of [main], whatever is typed and whatever the device answers,
    first connects and from then on asks the client for nothing but reads of
    two registers and writes of two 16-bit words at the five addresses of the
    register map. *)
Theorem main_stays_in_catalog (Dev : Type) (client : ModbusTcpClient Dev)
    (w : World Dev) :
  exists later,
    calls (snd (main w)) = calls w ++ Connect :: later /\
    Forall (fun c => catalog_call c \/ c = Close) later.
Proof.
  destruct (main_calls_shape w) as (middle & F & E).
  eexists; split; [exact E |].
  apply Forall_app; split.
  - eapply Forall_impl; [| exact F]; intros c Hc; now left.
  - destruct (fst (main w)); repeat constructor; now right.
Qed.

(** [main] closes the client when it ends normally and only then: a run
    ended by an exception leaves the connection open. *)
Theorem main_closes_iff_normal_end (Dev : Type) (client : ModbusTcpClient Dev)
    (w : World Dev) :
  exists new,
    calls (snd (main w)) = calls w ++ new /\
    (In Close new <-> fst (main w) = Ok tt).
Proof.
  destruct (main_calls_shape w) as (middle & F & E).
  eexists; split; [exact E |].
  assert (Hmid : ~ In Close middle).
  { intros Hin; rewrite Forall_forall in F.
    now apply (catalog_call_not_close Close (F _ Hin)). }
  split.
  - intros [Hc | Hin]; [discriminate |].
    apply in_app_or in Hin as [Hin | Hin]; [contradiction |].
    destruct (fst (main w)) as [[] | e |]; [reflexivity | destruct Hin | destruct Hin].
  - intros Hok; rewrite Hok.
    right; apply in_or_app; right; now left.
Qed.

(** ** One edit of a UInt32 register *)

Lemma catalog_entries_writable (key : string) (reg : Register) :
  dict_get registers key = Some reg -> String.eqb (reg_access reg) "rw" = true.
Proof.
  unfold registers; cbn [dict_get].
  repeat (destruct (String.eqb key _); [intros H; injection H as <-; reflexivity |]).
  discriminate.
Qed.

(** For every UInt32 register of the map and every integer typed on a plain
    line, in range or not, one edit makes exactly one call on the client,
    the write of the two words of the integer at the address of the
    register; the editor prints the success line when the client
    acknowledges the write and the failure line when it does not. *)
Theorem editor_uint32_edit (Dev : Type) (client : ModbusTcpClient Dev)
    (d : Dev) (reg_key line : string) (reg : Register) (z : Z) (rest : list string) :
  dict_get registers reg_key = Some reg ->
  reg_type reg = "uint32" ->
  String.eqb reg_key "q" = false ->
  plain_line line = true ->
  py_int line = Ok z ->
  let words := uint32_register_values z in
  let acknowledged :=
    negb (isError (fst (write_registers d (reg_address reg) words))) in
  let updated :=
    Print (SuccessfullyUpdated (reg_description reg) (PyInt z) (reg_unit reg)) in
  exists w',
    change_value (start d (reg_key :: line :: "q" :: rest)) = (Ok tt, w') /\
    calls w' = [WriteRegisters (reg_address reg) words] /\
    stdin w' = rest /\
    (In updated (output w') <-> acknowledged = true) /\
    (In (Print FailedToUpdate) (output w') <-> acknowledged = false).
Proof.
  intros Hreg Hty Hq _ Hint words acknowledged updated.
  rewrite change_value_run; cbn [List.length stdin start device output calls].
  rewrite (change_loop_key _ _ _ reg_key (line :: "q" :: rest) reg)
    by (reflexivity || assumption || now apply (catalog_entries_writable reg_key)).
  rewrite bind_run.
  rewrite (change_one_uint32 reg_key reg _ _ line ("q" :: rest) z)
    by (reflexivity || assumption).
  cbv zeta; cbn [device stdin output calls].
  subst acknowledged updated words.
  destruct (write_registers d (reg_address reg) (uint32_register_values z))
    as [response d']; cbn [fst].
  rewrite (change_loop_quit _ _ _ rest) by reflexivity.
  cbn [device stdin output calls app].
  eexists; split; [reflexivity |]; cbn [calls stdin output].
  split; [reflexivity |]; split; [reflexivity |].
  unfold editor_header.
  destruct (isError response); cbn [negb app In]; split; split;
    try discriminate; intuition (discriminate || auto).
Qed.

Lemma editor_uint32_edit_witness :
  let reg := mkRegister 38 "uint32" 2 "ms" "Soldering Interval" "rw" in
  dict_get registers "ni" = Some reg /\
  reg_type reg = "uint32" /\
  String.eqb "ni" "q" = false /\
  plain_line "-1" = true /\
  py_int "-1" = Ok (-1) /\
  let words := uint32_register_values (-1) in
  let acknowledged :=
    negb (isError (fst (write_registers bank0 (reg_address reg) words))) in
  let updated :=
    Print (SuccessfullyUpdated (reg_description reg) (PyInt (-1)) (reg_unit reg)) in
  exists w',
    change_value (start bank0 ["ni"; "-1"; "q"]) = (Ok tt, w') /\
    calls w' = [WriteRegisters (reg_address reg) words] /\
    stdin w' = [] /\
    (In updated (output w') <-> acknowledged = true) /\
    (In (Print FailedToUpdate) (output w') <-> acknowledged = false).
Proof.
  intros reg.
  split; [reflexivity |]; split; [reflexivity |]; split; [reflexivity |].
  split; [reflexivity |]; split; [reflexivity |].
  apply (editor_uint32_edit Bank Bank_client bank0 "ni" "-1" reg (-1) []); reflexivity.
Defined.
